(** * logger: leveled, namespaced logging with capability-based handlers

    A shallow embedding of [logger.go].  Strings are Go strings, that is,
    sequences of bytes ([String.string]); a [Level] is an unsigned
    integer; the package variables ([loggers], the environment-variable
    prefix, [DefaultLogger]) and the [Logger] structs they point to live
    in an explicit [World]; the calls made on handlers and the
    evaluations of [fmt.Sprintf] are recorded as events, in program
    order, and a call that reaches [os.Exit] ends with the outcome
    [Exits]. *)

From Stdlib Require Import NArith ZArith Ascii String List Bool Lia.
From stdpp Require Import base option gmap strings list fin_maps.

Local Open Scope string_scope.
Local Open Scope list_scope.
Local Open Scope N_scope.

(** ** Levels *)

(** [type Level uint], with the five constants declared by [iota]. *)
Definition Level : Type := N.

Definition LevelNone : Level := 0.
Definition LevelError : Level := 1.
Definition LevelWarn : Level := 2.
Definition LevelInfo : Level := 3.
Definition LevelDebug : Level := 4.

(** ** The functions of package [strings] the program calls *)

Module gostrings.

(** [utf8.RuneSelf]: bytes below it are one-byte (ASCII) runes. *)
Definition RuneSelf : N := 128.

Definition byte_val (c : ascii) : N := N_of_ascii c.

Definition isUpperByte (c : ascii) : bool :=
  (byte_val "A" <=? byte_val c) && (byte_val c <=? byte_val "Z").

Definition isLowerByte (c : ascii) : bool :=
  (byte_val "a" <=? byte_val c) && (byte_val c <=? byte_val "z").

(** [c -= 'a' - 'A'] on a lower-case letter. *)
Definition toUpperByte (c : ascii) : ascii :=
  if isLowerByte c then ascii_of_N (byte_val c - 32) else c.

(** [c += 'a' - 'A'] on an upper-case letter. *)
Definition toLowerByte (c : ascii) : ascii :=
  if isUpperByte c then ascii_of_N (byte_val c + 32) else c.

Fixpoint isASCII (s : string) : bool :=
  match s with
  | EmptyString => true
  | String c s' => (byte_val c <? RuneSelf) && isASCII s'
  end.

Fixpoint mapBytes (f : ascii → ascii) (s : string) : string :=
  match s with
  | EmptyString => EmptyString
  | String c s' => String (f c) (mapBytes f s')
  end.

(** One step of the ASCII loop of [EqualFold]: equal bytes, or an
    upper-case letter and its lower-case form. *)
Definition foldEqByte (sr tr : ascii) : bool :=
  if Ascii.eqb tr sr then true
  else
    let lo := if byte_val tr <? byte_val sr then tr else sr in
    let hi := if byte_val tr <? byte_val sr then sr else tr in
    isUpperByte lo && (byte_val hi =? byte_val lo + 32).

(** [strings.Replace(s, old, new, n)] for a non-empty [old]: the first
    [n] non-overlapping occurrences of [old], from the left, are
    replaced by [new]; all of them when [n] is negative.  [skip] counts
    the bytes of a matched occurrence that are still to be dropped. *)
Fixpoint replaceFrom (old new : string) (skip : nat) (n : Z) (s : string)
  : string :=
  match s with
  | EmptyString => EmptyString
  | String c s' =>
      match skip with
      | S k => replaceFrom old new k n s'
      | O =>
          if negb (n =? 0)%Z && String.prefix old s
          then new +:+ replaceFrom old new (String.length old - 1) (n - 1)%Z s'
          else String c (replaceFrom old new O n s')
      end
  end.

(** [Replace] returns [s] itself when [old == new] or [n == 0].  The
    program only passes one-byte [old] strings; an empty [old] (which Go
    matches at every rune boundary) is left alone here. *)
Definition Replace (s old new : string) (n : Z) : string :=
  if String.eqb old new || (n =? 0)%Z then s
  else match old with
       | EmptyString => s
       | _ => replaceFrom old new O n s
       end.

Fixpoint inCutset (cutset : string) (c : ascii) : bool :=
  match cutset with
  | EmptyString => false
  | String d cutset' => Ascii.eqb c d || inCutset cutset' c
  end.

(** [strings.TrimRight(s, cutset)] for an ASCII [cutset] (the one-byte
    and the ASCII-set paths of the library): the longest suffix of [s]
    made of bytes of [cutset] is removed. *)
Fixpoint TrimRight (s cutset : string) : string :=
  match s with
  | EmptyString => EmptyString
  | String d s' =>
      match TrimRight s' cutset with
      | EmptyString =>
          if inCutset cutset d then EmptyString else String d EmptyString
      | r => String d r
      end
  end.

Section Unicode.

(** The Unicode paths of the library, taken when the argument holds a
    byte that is not ASCII: [Map(unicode.ToUpper, s)],
    [Map(unicode.ToLower, s)] and the rune loop of [EqualFold]. *)
Variable unicodeToUpper unicodeToLower : string → string.
Variable unicodeEqualFold : string → string → bool.

(** [strings.ToUpper]: ASCII-only strings are mapped byte by byte. *)
Definition ToUpper (s : string) : string :=
  if isASCII s then mapBytes toUpperByte s else unicodeToUpper s.

(** [strings.ToLower]. *)
Definition ToLower (s : string) : string :=
  if isASCII s then mapBytes toLowerByte s else unicodeToLower s.

(** [strings.EqualFold]: the byte loop runs over the common length and
    jumps to the rune loop, on the rest of both strings, at the first
    index where either byte is not ASCII; when the loop ends the
    strings are equal iff both are exhausted. *)
Fixpoint EqualFold (s t : string) : bool :=
  match s, t with
  | String sr s', String tr t' =>
      if RuneSelf <=? N.lor (byte_val sr) (byte_val tr)
      then unicodeEqualFold s t
      else if foldEqByte sr tr then EqualFold s' t' else false
  | EmptyString, EmptyString => true
  | _, _ => false
  end.

End Unicode.

End gostrings.

(** ** Handlers, loggers and the events of a run *)

(** A value of type [Interface] (the empty interface): an object, known
    by its identity, whose dynamic type has or lacks each of the six
    capability methods; [impl*] is the outcome of the type assertion
    [handler.(XInterface)], X one of Init, Debug, Info, Warn, Error, Fatal. *)
Record Interface := {
  handler_id : nat;
  implInit : bool;
  implDebug : bool;
  implInfo : bool;
  implWarn : bool;
  implError : bool;
  implFatal : bool;
}.

(** The values passed as [v ...interface{}] to the formatting calls. *)
Inductive any :=
| AnyString (s : string)
| AnyInt (n : Z)
| AnyBool (b : bool).

(** What a call does that the caller can observe: evaluating
    [fmt.Sprintf], and calling a capability method of a handler. *)
Inductive Event :=
| EvSprintf (format : string) (v : list any)
| EvInit (h : Interface) (namespace : string) (level : Level)
| EvDebug (h : Interface) (msg : string)
| EvInfo (h : Interface) (msg : string)
| EvWarn (h : Interface) (msg : string)
| EvError (h : Interface) (msg : string)
| EvFatal (h : Interface) (msg : string).

(** How a call ends: it returns, or the process ends in [os.Exit(code)]. *)
Inductive Outcome :=
| Returns
| Exits (code : Z).

(** The [Logger] struct. *)
Record Logger := {
  logger_Namespace : string;
  logger_Level : Level;
  logger_Handlers : list Interface;
}.

(** [for _, handler := range handlers { if x, ok := handler.(I); ok { x.M(..) } }] *)
Definition rangeHandlers (impl : Interface → bool) (call : Interface → Event)
  (handlers : list Interface) : list Event :=
  flat_map (λ handler, if impl handler then [call handler] else []) handlers.

(** Addresses of [Logger] structs; [*Logger] is [loc]. *)
Definition loc : Type := positive.

(** [error] values, by their message; [None] is [nil]. *)
Definition error : Type := option string.

(** The package variables, the [Logger] structs allocated so far, the
    process environment, and the events so far. *)
Record World := {
  heap : gmap loc Logger;
  loggers : gmap string loc;
  defaultEnvironmentVariablePrefix : string;
  DefaultLogger : option loc;
  environ : gmap string string;
  output : list Event;
}.

(** [os.Getenv]: the empty string when the variable is not set. *)
Definition Getenv (w : World) (key : string) : string :=
  default "" (environ w !! key).

(** The body of [for namespace := range loggers], over the keys in the
    order the iteration visits them: [true] when it returns the error. *)
Fixpoint rangeLoggers (keys : list string) : bool :=
  match keys with
  | [] => false
  | namespace :: keys' =>
      if negb (String.eqb namespace "") then true else rangeLoggers keys'
  end.

(** [setEnvironmentVariablePrefix]. *)
Definition setEnvironmentVariablePrefix (prefix : string) (w : World)
  : error * World :=
  if rangeLoggers (map_to_list (loggers w)).*1
  then (Some "Cannot change prefix because some logs have already been use", w)
  else (None,
        {| heap := heap w;
           loggers := delete "" (loggers w);
           defaultEnvironmentVariablePrefix := prefix;
           DefaultLogger := DefaultLogger w;
           environ := environ w;
           output := output w |}).

(** [GetDefaultEnvironmentVariablePrefix]. *)
Definition GetDefaultEnvironmentVariablePrefix (w : World) : string :=
  defaultEnvironmentVariablePrefix w.

(** ** Sample handlers and library functions

    Concrete values on which the statements below are run. *)

(** A handler implementing all six capabilities. *)
Definition fullHandler (id : nat) : Interface :=
  {| handler_id := id;
     implInit := true; implDebug := true; implInfo := true;
     implWarn := true; implError := true; implFatal := true |}.

(** A handler implementing none. *)
Definition bareHandler (id : nat) : Interface :=
  {| handler_id := id;
     implInit := false; implDebug := false; implInfo := false;
     implWarn := false; implError := false; implFatal := false |}.

(** The part of [fmt.Sprintf] the program itself relies on: the verb
    ["%s"] applied to one string; any other format is returned as it is. *)
Definition sprintfS (format : string) (v : list any) : string :=
  match v with
  | [AnyString s] => if String.eqb format "%s" then s else format
  | _ => format
  end.

(** Stand-ins for the Unicode paths, for runs on ASCII text. *)
Definition asciiOnlyMap (s : string) : string := s.
Definition asciiOnlyEqualFold (s t : string) : bool := false.

(** ** Definitions that follow the specification's words

    They are compared with the program's functions below. *)

(** "trimmed of a single trailing newline": the last byte is removed
    when it is a newline, and nothing else. *)
Fixpoint trimSingleNewline (s : string) : string :=
  match s with
  | EmptyString => EmptyString
  | String c EmptyString =>
      if Ascii.eqb c "010"%char then EmptyString else s
  | String c s' => String c (trimSingleNewline s')
  end.

(** [k] newline bytes. *)
Fixpoint newlines (k : nat) : string :=
  match k with
  | O => EmptyString
  | S k' => String "010"%char (newlines k')
  end.

(** The last byte of a string. *)
Fixpoint lastByte (s : string) : option ascii :=
  match s with
  | EmptyString => None
  | String c EmptyString => Some c
  | String _ s' => lastByte s'
  end.

(** "case-insensitive match against debug, info, warn, error, none;
    unknown strings default to Info": the input with its ASCII letters
    in lower case is compared with the five words. *)
Definition levelFromString (s : string) : Level :=
  let l := gostrings.mapBytes gostrings.toLowerByte s in
  if String.eqb l "debug" then LevelDebug
  else if String.eqb l "info" then LevelInfo
  else if String.eqb l "warn" then LevelWarn
  else if String.eqb l "error" then LevelError
  else if String.eqb l "none" then LevelNone
  else LevelInfo.

(** The alphabet, small and capital, letter under letter. *)
Definition smallLetters : string := "abcdefghijklmnopqrstuvwxyz".
Definition capitalLetters : string := "ABCDEFGHIJKLMNOPQRSTUVWXYZ".

(** The byte of [to] that stands where [c] stands in [from]; [c] itself
    when it is not in [from]. *)
Fixpoint translate (from to : string) (c : ascii) : ascii :=
  match from, to with
  | String a from', String b to' =>
      if Ascii.eqb c a then b else translate from' to' c
  | _, _ => c
  end.

(** "uppercased": each small letter of the alphabet is replaced by its
    capital, and every other byte is kept. *)
Definition upperLetter (c : ascii) : ascii :=
  translate smallLetters capitalLetters c.

(** "lowercased": each capital is replaced by its small letter. *)
Definition lowerLetter (c : ascii) : ascii :=
  translate capitalLetters smallLetters c.

(** "with [-] and [.] replaced by [_]". *)
Definition dashDotToUnderscore (c : ascii) : ascii :=
  if Ascii.eqb c "-" || Ascii.eqb c "." then "_"%char else c.

(** An ASCII word none of whose letters has a case variant outside
    ASCII: of the ASCII letters only [k] (Kelvin sign) and [s] (long s)
    have one. *)
Fixpoint foldsWithinASCII (t : string) : bool :=
  match t with
  | EmptyString => true
  | String c t' =>
      (gostrings.byte_val c <? gostrings.RuneSelf)
      && negb (gostrings.inCutset "kKsS" c)
      && foldsWithinASCII t'
  end.

(** The 256 bytes, for statements checked byte by byte. *)
Definition allBytes : list ascii := map ascii_of_nat (seq 0 256).

(** ** What the file takes from outside

    The Unicode paths of package [strings], taken when an argument holds
    a byte that is not ASCII; [fmt.Sprintf]; and the value
    [&DefaultHandler{}], whose type is declared in another file of the
    package. *)
Class External := {
  unicodeToUpper : string → string;
  unicodeToLower : string → string;
  unicodeEqualFold : string → string → bool;
  Sprintf : string → list any → string;
  DefaultHandler : Interface;
}.

Abbreviation ToUpper := (gostrings.ToUpper unicodeToUpper).
Abbreviation ToLower := (gostrings.ToLower unicodeToLower).
Abbreviation EqualFold := (gostrings.EqualFold unicodeEqualFold).

(** ** The program *)

Section Program.

Context {ext : External}.

(** The specification's "uppercased" and "lowercased" on strings: by
    the letter tables on ASCII text; text with a byte outside ASCII is
    mapped by Unicode's tables, which are not part of this file. *)
Definition upperCased (s : string) : string :=
  if gostrings.isASCII s then gostrings.mapBytes upperLetter s
  else unicodeToUpper s.

Definition lowerCased (s : string) : string :=
  if gostrings.isASCII s then gostrings.mapBytes lowerLetter s
  else unicodeToLower s.

(** The specification's environment key, "[<PREFIX>_<NAMESPACE>] where
    namespace is uppercased with [-] and [.] replaced by [_]". *)
Definition envKey (prefix namespace : string) : string :=
  prefix +:+ "_"
    +:+ gostrings.mapBytes dashDotToUnderscore (upperCased namespace).

(** The specification's resolution: the namespace's own variable, the
    variable [<PREFIX>] when that one is unset (empty), and [<PREFIX>]
    directly for the empty namespace. *)
Definition envValue (w : World) (namespace : string) : string :=
  let PREFIX := defaultEnvironmentVariablePrefix w in
  if decide (namespace = "") then Getenv w PREFIX
  else if decide (Getenv w (envKey PREFIX namespace) = "")
       then Getenv w PREFIX
       else Getenv w (envKey PREFIX namespace).

(** [getEnvVarLevel]. *)
Definition getEnvVarLevel (w : World) (namespace : string) : string :=
  let prefix := defaultEnvironmentVariablePrefix w in
  let '(prefix, namespace) :=
    if negb (String.eqb namespace "")
    then (prefix +:+ "_",
          gostrings.Replace
            (gostrings.Replace (ToUpper namespace) "-" "_" (-1)) "." "_" (-1))
    else (prefix, namespace) in
  let level := Getenv w (prefix +:+ namespace) in
  let level :=
    if String.eqb level "" then Getenv w (defaultEnvironmentVariablePrefix w)
    else level in
  ToLower level.

(** [GetLevelByString]. *)
Definition GetLevelByString (level : string) : Level :=
  if EqualFold level "debug" then LevelDebug
  else if EqualFold level "info" then LevelInfo
  else if EqualFold level "warn" then LevelWarn
  else if EqualFold level "error" then LevelError
  else if EqualFold level "none" then LevelNone
  else LevelInfo.

(** [Logger.AddHandler]: the logger after the call, and the events. *)
Definition Logger_AddHandler (logger : Logger) (handler : Interface)
  : Logger * list Event :=
  let logger :=
    {| logger_Namespace := logger_Namespace logger;
       logger_Level := logger_Level logger;
       logger_Handlers := logger_Handlers logger ++ [handler] |} in
  (logger,
   if implInit handler
   then [EvInit handler (logger_Namespace logger) (logger_Level logger)]
   else []).

(** [Logger.SetLevel]. *)
Definition Logger_SetLevel (logger : Logger) (level : Level)
  : Logger * list Event :=
  let logger :=
    {| logger_Namespace := logger_Namespace logger;
       logger_Level := level;
       logger_Handlers := logger_Handlers logger |} in
  (logger,
   rangeHandlers implInit
     (λ h, EvInit h (logger_Namespace logger) (logger_Level logger))
     (logger_Handlers logger)).

(** [Logger.Debug]. *)
Definition Logger_Debug (logger : Logger) (format : string) (v : list any)
  : list Event :=
  if logger_Level logger <? LevelDebug then []
  else
    let msg := Sprintf format v in
    EvSprintf format v
      :: rangeHandlers implDebug (λ h, EvDebug h msg) (logger_Handlers logger).

(** [Logger.Info]. *)
Definition Logger_Info (logger : Logger) (format : string) (v : list any)
  : list Event :=
  if logger_Level logger <? LevelInfo then []
  else
    let msg := Sprintf format v in
    EvSprintf format v
      :: rangeHandlers implInfo (λ h, EvInfo h msg) (logger_Handlers logger).

(** [Logger.Warn]. *)
Definition Logger_Warn (logger : Logger) (format : string) (v : list any)
  : list Event :=
  if logger_Level logger <? LevelWarn then []
  else
    let msg := Sprintf format v in
    EvSprintf format v
      :: rangeHandlers implWarn (λ h, EvWarn h msg) (logger_Handlers logger).

(** [Logger.Error]. *)
Definition Logger_Error (logger : Logger) (format : string) (v : list any)
  : list Event :=
  if logger_Level logger <? LevelError then []
  else
    let msg := Sprintf format v in
    EvSprintf format v
      :: rangeHandlers implError (λ h, EvError h msg) (logger_Handlers logger).

(** [Logger.Fatal]: the events, and how the call ends. *)
Definition Logger_Fatal (logger : Logger) (format : string) (v : list any)
  : list Event * Outcome :=
  if logger_Level logger <? LevelError then ([], Returns)
  else
    let msg := Sprintf format v in
    (EvSprintf format v
       :: rangeHandlers implFatal (λ h, EvFatal h msg) (logger_Handlers logger),
     Exits 1).

(** The one-byte string ["\n"]. *)
Definition newline : string := String "010"%char EmptyString.

(** [Logger.Write]: the events, and the returned [(int, error)]. *)
Definition Logger_Write (logger : Logger) (b : list Byte.byte)
  : list Event * (nat * error) :=
  (Logger_Info logger "%s"
     [AnyString (gostrings.TrimRight (string_of_list_byte b) newline)],
   (length b, None)).

(** [Namespace]: the returned pointer and the world after the call. *)
Definition Namespace (namespace : string) (w : World) : loc * World :=
  let namespaceLower := ToLower namespace in
  match loggers w !! namespaceLower with
  | Some logger => (logger, w)
  | None =>
      let p := fresh (dom (heap w)) in
      let logger :=
        {| logger_Namespace := namespace;
           logger_Level := 0;
           logger_Handlers := [] |} in
      let '(logger, ev1) :=
        Logger_SetLevel logger (GetLevelByString (getEnvVarLevel w namespace)) in
      let '(logger, ev2) := Logger_AddHandler logger DefaultHandler in
      (p,
       {| heap := <[p := logger]> (heap w);
          loggers := <[namespaceLower := p]> (loggers w);
          defaultEnvironmentVariablePrefix := defaultEnvironmentVariablePrefix w;
          DefaultLogger := DefaultLogger w;
          environ := environ w;
          output := output w ++ ev1 ++ ev2 |})
  end.

(** [SetDefaultEnvironmentVariablePrefix]. *)
Definition SetDefaultEnvironmentVariablePrefix (prefix : string) (w : World)
  : error * World :=
  match setEnvironmentVariablePrefix prefix w with
  | (Some err, w) => (Some err, w)
  | (None, w) =>
      let '(p, w) := Namespace "" w in
      (None,
       {| heap := heap w;
          loggers := loggers w;
          defaultEnvironmentVariablePrefix := defaultEnvironmentVariablePrefix w;
          DefaultLogger := Some p;
          environ := environ w;
          output := output w |})
  end.

(** The package initialisers, in dependency order, in a process started
    with environment [env]: [loggers] is the empty map, the prefix is
    its constant, then [DefaultLogger = Namespace("")]. *)
Definition init (env : gmap string string) : World :=
  let '(p, w) :=
    Namespace ""
      {| heap := ∅;
         loggers := ∅;
         defaultEnvironmentVariablePrefix := "SEVERINO_LOGGER";
         DefaultLogger := None;
         environ := env;
         output := [] |} in
  {| heap := heap w;
     loggers := loggers w;
     defaultEnvironmentVariablePrefix := defaultEnvironmentVariablePrefix w;
     DefaultLogger := Some p;
     environ := environ w;
     output := output w |}.

(** *** The four leveled calls, by severity *)

Inductive Severity := SevDebug | SevInfo | SevWarn | SevError.

(** The constant a leveled method compares the logger's level to. *)
Definition severityLevel (sev : Severity) : Level :=
  match sev with
  | SevDebug => LevelDebug
  | SevInfo => LevelInfo
  | SevWarn => LevelWarn
  | SevError => LevelError
  end.

(** The capability a leveled method asserts on each handler. *)
Definition implOf (sev : Severity) : Interface → bool :=
  match sev with
  | SevDebug => implDebug
  | SevInfo => implInfo
  | SevWarn => implWarn
  | SevError => implError
  end.

(** The handler method a leveled method calls. *)
Definition evOf (sev : Severity) (msg : string) (h : Interface) : Event :=
  match sev with
  | SevDebug => EvDebug h msg
  | SevInfo => EvInfo h msg
  | SevWarn => EvWarn h msg
  | SevError => EvError h msg
  end.

Definition Logger_log (sev : Severity)
  : Logger → string → list any → list Event :=
  match sev with
  | SevDebug => Logger_Debug
  | SevInfo => Logger_Info
  | SevWarn => Logger_Warn
  | SevError => Logger_Error
  end.

(** Whether an event is an evaluation of [fmt.Sprintf]. *)
Definition isSprintf (ev : Event) : bool :=
  match ev with
  | EvSprintf _ _ => true
  | _ => false
  end.

(** *** Sequences of calls on the package *)

(** The calls a client can make that return (a call of [Fatal] may end
    the process, after which there is no later call). *)
Inductive Call :=
| CallNamespace (namespace : string)
| CallSetEnvironmentVariablePrefix (prefix : string)
| CallSetDefaultEnvironmentVariablePrefix (prefix : string)
| CallSetLevel (logger : loc) (level : Level)
| CallAddHandler (logger : loc) (handler : Interface)
| CallLog (sev : Severity) (logger : loc) (format : string) (v : list any)
| CallWrite (logger : loc) (b : list Byte.byte).

(** A method call through a [*Logger]: [None] is the nil-pointer panic
    of a pointer that addresses no [Logger]. *)
Definition onLogger (p : loc) (method : Logger → Logger * list Event)
  (w : World) : option World :=
  match heap w !! p with
  | None => None
  | Some logger =>
      let '(logger, ev) := method logger in
      Some {| heap := <[p := logger]> (heap w);
              loggers := loggers w;
              defaultEnvironmentVariablePrefix :=
                defaultEnvironmentVariablePrefix w;
              DefaultLogger := DefaultLogger w;
              environ := environ w;
              output := output w ++ ev |}
  end.

Definition exec (c : Call) (w : World) : option World :=
  match c with
  | CallNamespace namespace => Some (Namespace namespace w).2
  | CallSetEnvironmentVariablePrefix prefix =>
      Some (setEnvironmentVariablePrefix prefix w).2
  | CallSetDefaultEnvironmentVariablePrefix prefix =>
      Some (SetDefaultEnvironmentVariablePrefix prefix w).2
  | CallSetLevel p level => onLogger p (λ l, Logger_SetLevel l level) w
  | CallAddHandler p handler => onLogger p (λ l, Logger_AddHandler l handler) w
  | CallLog sev p format v => onLogger p (λ l, (l, Logger_log sev l format v)) w
  | CallWrite p b => onLogger p (λ l, (l, (Logger_Write l b).1)) w
  end.

Fixpoint run (cs : list Call) (w : World) : option World :=
  match cs with
  | [] => Some w
  | c :: cs' =>
      match exec c w with
      | None => None
      | Some w' => run cs' w'
      end
  end.

(** Whether a call is one of the two prefix changes. *)
Definition changesPrefix (c : Call) : bool :=
  match c with
  | CallSetEnvironmentVariablePrefix _
  | CallSetDefaultEnvironmentVariablePrefix _ => true
  | _ => false
  end.

(** *** Invariants of the registry *)

(** Every [Logger] constructed so far whose case-folded name satisfies
    [K] is the one the registry holds under that name. *)
Definition registered (K : string → Prop) (w : World) : Prop :=
  ∀ p l, heap w !! p = Some l → K (ToLower (logger_Namespace l)) →
         loggers w !! ToLower (logger_Namespace l) = Some p.

(** The registry holds only pointers to [Logger]s that exist. *)
Definition allocated (w : World) : Prop :=
  ∀ k p, loggers w !! k = Some p → is_Some (heap w !! p).

(** No call of the sequence is a prefix change. *)
Definition noPrefixChange (cs : list Call) : bool :=
  forallb (λ c, negb (changesPrefix c)) cs.

End Program.

(** ** A sample instance

    Library functions for runs on ASCII text, and a default handler that
    implements every capability. *)
Definition sampleExternal : External :=
  {| unicodeToUpper := asciiOnlyMap;
     unicodeToLower := asciiOnlyMap;
     unicodeEqualFold := asciiOnlyEqualFold;
     Sprintf := sprintfS;
     DefaultHandler := fullHandler 0 |}.

(** Sample loggers, payloads and call sequences. *)
Definition quietLogger : Logger :=
  {| logger_Namespace := "svc";
     logger_Level := LevelNone;
     logger_Handlers := [fullHandler 1] |}.

Definition infoLogger : Logger :=
  {| logger_Namespace := "svc";
     logger_Level := LevelInfo;
     logger_Handlers := [fullHandler 1] |}.

Definition helloLine : list Byte.byte :=
  list_byte_of_string ("hello" +:+ newlines 1).

Definition helloTwoLines : list Byte.byte :=
  list_byte_of_string ("hello" +:+ newlines 2).

Definition sampleEnv : gmap string string :=
  <["SEVERINO_LOGGER" := "warn"]>
    (<["SEVERINO_LOGGER_PAYMENTS" := "debug"]> ∅).

Definition sampleCalls : list Call :=
  [CallNamespace "Svc-A"; CallAddHandler 2%positive (bareHandler 5)].

Definition sampleMid : list Call :=
  [CallSetLevel 3%positive LevelDebug;
   CallNamespace "other";
   CallSetDefaultEnvironmentVariablePrefix "APP";
   CallLog SevInfo 3%positive "%s" [AnyString "ready"]].

(** The world a call sequence ends in ([w] itself if a call panics). *)
Definition worldAfter (cs : list Call) (w : World) : World :=
  default w (run (ext := sampleExternal) cs w).

(** ** The package-level functions

    Each forwards to [DefaultLogger]. *)

Section Facade.

Context {ext : External}.

(** A method call through [DefaultLogger]; [None] is the nil-pointer
    panic. *)
Definition onDefaultLogger (method : Logger → Logger * list Event)
  (w : World) : option World :=
  match DefaultLogger w with
  | None => None
  | Some p => onLogger p method w
  end.

(** [AddHandler]. *)
Definition AddHandler (handler : Interface) (w : World) : option World :=
  onDefaultLogger (λ l, Logger_AddHandler l handler) w.

(** [SetLevel]. *)
Definition SetLevel (level : Level) (w : World) : option World :=
  onDefaultLogger (λ l, Logger_SetLevel l level) w.

(** [Debug]. *)
Definition Debug (format : string) (v : list any) (w : World) : option World :=
  onDefaultLogger (λ l, (l, Logger_Debug l format v)) w.

(** [Info]. *)
Definition Info (format : string) (v : list any) (w : World) : option World :=
  onDefaultLogger (λ l, (l, Logger_Info l format v)) w.

(** [Warn]. *)
Definition Warn (format : string) (v : list any) (w : World) : option World :=
  onDefaultLogger (λ l, (l, Logger_Warn l format v)) w.

(** [Error]. *)
Definition Error (format : string) (v : list any) (w : World) : option World :=
  onDefaultLogger (λ l, (l, Logger_Error l format v)) w.

(** [Fatal]: the world after the call and how the call ends. *)
Definition Fatal (format : string) (v : list any) (w : World)
  : option (World * Outcome) :=
  match DefaultLogger w with
  | None => None
  | Some p =>
      match heap w !! p with
      | None => None
      | Some logger =>
          let '(ev, out) := Logger_Fatal logger format v in
          Some ({| heap := heap w;
                   loggers := loggers w;
                   defaultEnvironmentVariablePrefix :=
                     defaultEnvironmentVariablePrefix w;
                   DefaultLogger := DefaultLogger w;
                   environ := environ w;
                   output := output w ++ ev |}, out)
      end
  end.

(** Whether a call is one a client of the package can make:
    [setEnvironmentVariablePrefix] is not exported. *)
Definition exportedCall (c : Call) : bool :=
  match c with
  | CallSetEnvironmentVariablePrefix _ => false
  | _ => true
  end.

(** The [Logger] a call is a method call on. *)
Definition receiver (c : Call) : option loc :=
  match c with
  | CallSetLevel p _ | CallAddHandler p _ | CallLog _ p _ _ | CallWrite p _ =>
      Some p
  | _ => None
  end.

(** No call of the sequence is a method call on [p]. *)
Definition leavesAlone (p : loc) (cs : list Call) : bool :=
  forallb (λ c, negb (bool_decide (receiver c = Some p))) cs.

(** Whether a call is a prefix change that succeeds in world [w]
    (returns a nil error). *)
Definition succeedsPrefixChange (c : Call) (w : World) : bool :=
  match c with
  | CallSetEnvironmentVariablePrefix prefix =>
      match (setEnvironmentVariablePrefix prefix w).1 with
      | None => true
      | Some _ => false
      end
  | CallSetDefaultEnvironmentVariablePrefix prefix =>
      match (SetDefaultEnvironmentVariablePrefix prefix w).1 with
      | None => true
      | Some _ => false
      end
  | _ => false
  end.

(** In the run of [cs] from [w] no prefix change succeeds: each one
    that is made returns its error. *)
Fixpoint noSuccessfulPrefixChange (cs : list Call) (w : World) : bool :=
  match cs with
  | [] => true
  | c :: cs' =>
      negb (succeedsPrefixChange c w)
      && match exec c w with
         | Some w' => noSuccessfulPrefixChange cs' w'
         | None => true
         end
  end.

(** *** Further invariants of the registry *)

(** [DefaultLogger] is the root logger of the registry, and exists. *)
Definition rooted (w : World) : Prop :=
  ∃ p, DefaultLogger w = Some p
       ∧ loggers w !! "" = Some p
       ∧ is_Some (heap w !! p).

(** No [Logger] is registered under two names. *)
Definition injective (w : World) : Prop :=
  ∀ k1 k2 p, loggers w !! k1 = Some p → loggers w !! k2 = Some p → k1 = k2.

End Facade.

Global Instance Interface_eq_dec : EqDecision Interface.
Proof. solve_decision. Defined.

Global Instance any_eq_dec : EqDecision any.
Proof. solve_decision. Defined.

Global Instance Event_eq_dec : EqDecision Event.
Proof. unfold Level. solve_decision. Defined.

(** ** The earlier version of the package ([src/unnamed/part_000])

    No [LevelNone], no registry and no [Write]; the prefix is a
    constant.  [AddHandler] and [SetLevel] are as above. *)

Module part_000.

Definition DefaultEnvironmentVariablePrefix : string := "SEVERINO_LOGGER".

Definition LevelError : Level := 0.
Definition LevelWarn : Level := 1.
Definition LevelInfo : Level := 2.
Definition LevelDebug : Level := 3.

(** The [Logger] structs allocated so far, the process environment and
    the events so far. *)
Record State := {
  heap : gmap loc Logger;
  environ : gmap string string;
  output : list Event;
}.

Definition Getenv (st : State) (key : string) : string :=
  default "" (environ st !! key).

Section Program.

Context {ext : External}.

(** [getEnvVarLevel]. *)
Definition getEnvVarLevel (st : State) (namespace : string) : string :=
  let prefix := DefaultEnvironmentVariablePrefix in
  let '(prefix, namespace) :=
    if negb (String.eqb namespace "")
    then (prefix +:+ "_",
          gostrings.Replace
            (gostrings.Replace (ToUpper namespace) "-" "_" (-1)) "." "_" (-1))
    else (prefix, namespace) in
  let level := Getenv st (prefix +:+ namespace) in
  let level :=
    if String.eqb level "" then Getenv st DefaultEnvironmentVariablePrefix
    else level in
  ToLower level.

(** [getLevelByString]. *)
Definition getLevelByString (level : string) : Level :=
  if EqualFold level "debug" then LevelDebug
  else if EqualFold level "info" then LevelInfo
  else if EqualFold level "warn" then LevelWarn
  else if EqualFold level "error" then LevelError
  else LevelWarn.

(** [Namespace]: every call allocates a [Logger]. *)
Definition Namespace (namespace : string) (st : State) : loc * State :=
  let p := fresh (dom (heap st)) in
  let logger :=
    {| logger_Namespace := namespace;
       logger_Level := 0;
       logger_Handlers := [] |} in
  let '(logger, ev1) :=
    Logger_SetLevel logger (getLevelByString (getEnvVarLevel st namespace)) in
  let '(logger, ev2) := Logger_AddHandler logger DefaultHandler in
  (p,
   {| heap := <[p := logger]> (heap st);
      environ := environ st;
      output := output st ++ ev1 ++ ev2 |}).

(** [Logger.Debug]. *)
Definition Logger_Debug (logger : Logger) (format : string) (v : list any)
  : list Event :=
  if logger_Level logger <? LevelDebug then []
  else
    let msg := Sprintf format v in
    EvSprintf format v
      :: rangeHandlers implDebug (λ h, EvDebug h msg) (logger_Handlers logger).

(** [Logger.Info]. *)
Definition Logger_Info (logger : Logger) (format : string) (v : list any)
  : list Event :=
  if logger_Level logger <? LevelInfo then []
  else
    let msg := Sprintf format v in
    EvSprintf format v
      :: rangeHandlers implInfo (λ h, EvInfo h msg) (logger_Handlers logger).

(** [Logger.Warn]. *)
Definition Logger_Warn (logger : Logger) (format : string) (v : list any)
  : list Event :=
  if logger_Level logger <? LevelWarn then []
  else
    let msg := Sprintf format v in
    EvSprintf format v
      :: rangeHandlers implWarn (λ h, EvWarn h msg) (logger_Handlers logger).

(** [Logger.Error]. *)
Definition Logger_Error (logger : Logger) (format : string) (v : list any)
  : list Event :=
  if logger_Level logger <? LevelError then []
  else
    let msg := Sprintf format v in
    EvSprintf format v
      :: rangeHandlers implError (λ h, EvError h msg) (logger_Handlers logger).

(** [Logger.Fatal]. *)
Definition Logger_Fatal (logger : Logger) (format : string) (v : list any)
  : list Event * Outcome :=
  if logger_Level logger <? LevelError then ([], Returns)
  else
    let msg := Sprintf format v in
    (EvSprintf format v
       :: rangeHandlers implFatal (λ h, EvFatal h msg) (logger_Handlers logger),
     Exits 1).

End Program.

End part_000.

(** The earlier version's table of level names: "warn" for what is not
    a level name. *)
Definition levelFromStringOrWarn (s : string) : Level :=
  let l := gostrings.mapBytes gostrings.toLowerByte s in
  if String.eqb l "debug" then part_000.LevelDebug
  else if String.eqb l "info" then part_000.LevelInfo
  else if String.eqb l "warn" then part_000.LevelWarn
  else if String.eqb l "error" then part_000.LevelError
  else part_000.LevelWarn.

(** Sample worlds: after the initialisation and [sampleCalls]; after the
    creation of "Svc-B" there; after [sampleMid] there. *)
Definition sampleWorld1 : World :=
  worldAfter sampleCalls (init (ext := sampleExternal) ∅).

Definition sampleWorld2 : World :=
  (Namespace (ext := sampleExternal) "Svc-B" sampleWorld1).2.

Definition sampleWorld3 : World := worldAfter sampleMid sampleWorld2.

Definition exportedCalls : list Call :=
  sampleCalls ++ [CallNamespace "Svc-B"] ++ sampleMid.

(** The [Logger] at an address of a world. *)
Definition loggerAt (p : loc) (w : World) : Logger :=
  default quietLogger (heap w !! p).

(** Calls on the root logger around a prefix change that is refused,
    namespace "x" existing by then. *)
Definition rootMid : list Call :=
  [CallNamespace "x";
   CallSetDefaultEnvironmentVariablePrefix "APP";
   CallSetLevel 1%positive LevelDebug].

(** An environment with a variable for the namespace "Pay-Ments.v2". *)
Definition sampleKeyEnv : gmap string string :=
  <["SEVERINO_LOGGER" := "warn"]>
    (<["SEVERINO_LOGGER_PAY_MENTS_V2" := "DeBuG"]> ∅).

(** A text with a newline inside. *)
Definition twoLines : string := "a" +:+ newlines 1 +:+ "b".

(** * Properties *)

Section Facts.

Context {ext : External}.

Set Default Proof Using "Type".


(** ** Package [strings] *)

Lemma In_allBytes (c : ascii) : In c allBytes.
Proof.
  rewrite <- (ascii_nat_embedding c). apply in_map, in_seq.
  pose proof (nat_ascii_bounded c). lia.
Qed.

Lemma forall_bytes (P : ascii → bool) :
  forallb P allBytes = true → ∀ c, P c = true.
Proof. intros H c. eapply forallb_forall in H; [done | apply In_allBytes]. Qed.

Lemma forall_bytes2 (P : ascii → ascii → bool) :
  forallb (λ a, forallb (P a) allBytes) allBytes = true → ∀ a b, P a b = true.
Proof.
  intros H a b.
  apply (forall_bytes (P a)), (forall_bytes (λ a, forallb (P a) allBytes) H).
Qed.

(** Below [RuneSelf], one step of the byte loop of [EqualFold] compares
    the two bytes in lower case. *)
Lemma foldEqByte_lower (sr tr : ascii) :
  N.lor (gostrings.byte_val sr) (gostrings.byte_val tr) < gostrings.RuneSelf →
  gostrings.foldEqByte sr tr
  = Ascii.eqb (gostrings.toLowerByte sr) (gostrings.toLowerByte tr).
Proof.
  intros Hlt. apply N.ltb_lt in Hlt. revert Hlt.
  pose proof (forall_bytes2 (λ a b,
    implb (N.lor (gostrings.byte_val a) (gostrings.byte_val b)
             <? gostrings.RuneSelf)
      (Bool.eqb (gostrings.foldEqByte a b)
         (Ascii.eqb (gostrings.toLowerByte a) (gostrings.toLowerByte b)))))
    as H.
  specialize (H ltac:(vm_compute; reflexivity) sr tr). simpl in H.
  intros Hlt. rewrite Hlt in H. simpl in H. by apply Bool.eqb_prop.
Qed.

(** A byte that is not ASCII differs, also in lower case, from every
    ASCII byte; and [sr|tr] reaches [RuneSelf] iff one of them does. *)
Lemma nonASCII_lower_ne (sr tr : ascii) :
  gostrings.RuneSelf ≤ N.lor (gostrings.byte_val sr) (gostrings.byte_val tr) →
  gostrings.byte_val tr < gostrings.RuneSelf →
  gostrings.RuneSelf ≤ gostrings.byte_val sr
  ∧ Ascii.eqb (gostrings.toLowerByte sr) (gostrings.toLowerByte tr) = false.
Proof.
  intros Hor Htr. apply N.leb_le in Hor. apply N.ltb_lt in Htr.
  pose proof (forall_bytes2 (λ a b,
    implb ((gostrings.RuneSelf
              <=? N.lor (gostrings.byte_val a) (gostrings.byte_val b))
           && (gostrings.byte_val b <? gostrings.RuneSelf))
      ((gostrings.RuneSelf <=? gostrings.byte_val a)
       && negb (Ascii.eqb (gostrings.toLowerByte a) (gostrings.toLowerByte b)))))
    as H.
  specialize (H ltac:(vm_compute; reflexivity) sr tr). simpl in H.
  rewrite Hor, Htr in H. simpl in H.
  apply andb_true_iff in H as [H1 H2].
  split; [by apply N.leb_le | by apply negb_true_iff].
Qed.

Lemma mapBytes_mapBytes f g s :
  gostrings.mapBytes g (gostrings.mapBytes f s)
  = gostrings.mapBytes (λ c, g (f c)) s.
Proof. induction s as [|c s IH]; simpl; [done | by rewrite IH]. Qed.

Lemma mapBytes_ext f g s :
  (∀ c, f c = g c) → gostrings.mapBytes f s = gostrings.mapBytes g s.
Proof. intros H. induction s as [|c s IH]; simpl; [done | by rewrite H, IH]. Qed.

(** Replacing every occurrence of a one-byte string by another one-byte
    string maps the bytes one by one. *)
Lemma replaceFrom_byte (a b : ascii) (n : Z) (s : string) :
  (n < 0)%Z →
  gostrings.replaceFrom (String a "") (String b "") O n s
  = gostrings.mapBytes (λ c, if Ascii.eqb c a then b else c) s.
Proof.
  revert n. induction s as [|c s IH]; intros n Hn; simpl; [done|].
  assert (Hz : (n =? 0)%Z = false) by lia. rewrite Hz. simpl.
  destruct (ascii_dec a c) as [->|Hne].
  - rewrite Ascii.eqb_refl.
    assert (Hp : String.prefix "" s = true) by by destruct s.
    rewrite Hp. change (String b "" +:+ ?x) with (String b x).
    by rewrite IH by lia.
  - destruct (Ascii.eqb_spec c a) as [->|_]; [done|]. by rewrite IH.
Qed.

Lemma Replace_byte (a b : ascii) (s : string) :
  a ≠ b →
  gostrings.Replace s (String a "") (String b "") (-1)
  = gostrings.mapBytes (λ c, if Ascii.eqb c a then b else c) s.
Proof.
  intros Hne. unfold gostrings.Replace. simpl.
  destruct (Ascii.eqb_spec a b) as [->|_]; [done|]. simpl.
  by apply replaceFrom_byte.
Qed.

Lemma append_nil_r (s : string) : s +:+ "" = s.
Proof.
  induction s as [|c s IH]; [done|].
  change (String c (s +:+ "") = String c s). by rewrite IH.
Qed.

Lemma append_assoc (s t u : string) : (s +:+ t) +:+ u = s +:+ t +:+ u.
Proof.
  induction s as [|c s IH]; [done|].
  change (String c ((s +:+ t) +:+ u) = String c (s +:+ t +:+ u)).
  by rewrite IH.
Qed.

Lemma eqb_mapBytes_lower_nonASCII sr s tr t :
  Ascii.eqb (gostrings.toLowerByte sr) (gostrings.toLowerByte tr) = false →
  String.eqb (gostrings.mapBytes gostrings.toLowerByte (String sr s))
    (gostrings.mapBytes gostrings.toLowerByte (String tr t)) = false.
Proof. intros H. simpl. by rewrite H. Qed.

(** ** Environment level resolution *)

Lemma toUpperByte_upperLetter (c : ascii) :
  gostrings.toUpperByte c = upperLetter c.
Proof.
  apply Ascii.eqb_eq.
  apply (forall_bytes (λ c, Ascii.eqb (gostrings.toUpperByte c) (upperLetter c))).
  vm_compute. reflexivity.
Qed.

Lemma toLowerByte_lowerLetter (c : ascii) :
  gostrings.toLowerByte c = lowerLetter c.
Proof.
  apply Ascii.eqb_eq.
  apply (forall_bytes (λ c, Ascii.eqb (gostrings.toLowerByte c) (lowerLetter c))).
  vm_compute. reflexivity.
Qed.

Lemma ToUpper_upperCased (s : string) : ToUpper s = upperCased s.
Proof.
  unfold gostrings.ToUpper, upperCased. destruct (gostrings.isASCII s); [|done].
  apply mapBytes_ext, toUpperByte_upperLetter.
Qed.

Lemma ToLower_lowerCased (s : string) : ToLower s = lowerCased s.
Proof.
  unfold gostrings.ToLower, lowerCased. destruct (gostrings.isASCII s); [|done].
  apply mapBytes_ext, toLowerByte_lowerLetter.
Qed.

(** C5. Environment level resolution.  For a non-empty namespace the
    variable read is [<PREFIX>_<NAMESPACE>], the namespace in upper case
    (every small letter replaced by its capital) with every [-] and [.]
    replaced by [_]; when its value is empty (unset) the value of
    [<PREFIX>] is taken instead, so a variable of the namespace has
    precedence over the blanket one; the empty namespace reads
    [<PREFIX>] itself; the value is put in lower case (every capital
    replaced by its small letter) and then handed to
    [GetLevelByString]. *)
Theorem getEnvVarLevel_resolution (w : World) (namespace : string) :
  getEnvVarLevel w namespace = lowerCased (envValue w namespace)
  ∧ envKey (defaultEnvironmentVariablePrefix w) namespace
    = defaultEnvironmentVariablePrefix w +:+ "_"
        +:+ gostrings.Replace
              (gostrings.Replace (ToUpper namespace) "-" "_" (-1)) "." "_" (-1)
  ∧ envValue w "" = Getenv w (defaultEnvironmentVariablePrefix w)
  ∧ GetLevelByString (getEnvVarLevel w namespace)
    = GetLevelByString (lowerCased (envValue w namespace)).
Proof.
  assert (Hrep : gostrings.Replace
                   (gostrings.Replace (ToUpper namespace) "-" "_" (-1))
                   "." "_" (-1)
                 = gostrings.mapBytes dashDotToUnderscore (upperCased namespace)).
  { rewrite !Replace_byte by done. rewrite mapBytes_mapBytes, ToUpper_upperCased.
    apply mapBytes_ext. intros c. unfold dashDotToUnderscore.
    destruct (Ascii.eqb_spec c "-") as [->|_]; [done|]. simpl.
    by destruct (Ascii.eqb c "."). }
  assert (Hmain : getEnvVarLevel w namespace
                  = lowerCased (envValue w namespace)).
  { unfold getEnvVarLevel, envValue, envKey.
    destruct (String.eqb_spec namespace "") as [->|Hne]; simpl;
      rewrite ToLower_lowerCased.
    - rewrite append_nil_r. by destruct (String.eqb _ "").
    - rewrite decide_False by done. rewrite Hrep, append_assoc.
      destruct (String.eqb_spec (Getenv w
        (defaultEnvironmentVariablePrefix w +:+ "_"
           +:+ gostrings.mapBytes dashDotToUnderscore (upperCased namespace)))
        "") as [He|He].
      + by rewrite decide_True.
      + by rewrite decide_False. }
  split; [done|]. split; [by rewrite Hrep|]. split; [done|]. by rewrite Hmain.
Qed.

(** ** Level parsing *)

(** [EqualFold] against an ASCII word whose letters fold within ASCII
    never succeeds through its rune loop when the other string starts
    with a byte that is not ASCII: no rune outside ASCII is a case
    variant of a letter of the word. *)
Hypothesis unicodeEqualFold_ascii_word : ∀ sr s t,
  gostrings.RuneSelf ≤ gostrings.byte_val sr →
  foldsWithinASCII t = true →
  unicodeEqualFold (String sr s) t = false.

Lemma EqualFold_ascii_word (t : string) :
  foldsWithinASCII t = true →
  ∀ s, EqualFold s t
       = String.eqb (gostrings.mapBytes gostrings.toLowerByte s)
           (gostrings.mapBytes gostrings.toLowerByte t).
Proof using unicodeEqualFold_ascii_word.
  induction t as [|tr t IH]; intros Ht s.
  - by destruct s.
  - destruct s as [|sr s]; [done|].
    pose proof Ht as Ht'. simpl in Ht'.
    apply andb_true_iff in Ht' as [Htr Htl].
    apply andb_true_iff in Htr as [Htr _]. apply N.ltb_lt in Htr.
    cbn [gostrings.EqualFold].
    destruct (N.leb_spec gostrings.RuneSelf
                (N.lor (gostrings.byte_val sr) (gostrings.byte_val tr)))
      as [Hge|Hlt].
    + destruct (nonASCII_lower_ne sr tr Hge Htr) as [Hsr Hne].
      rewrite unicodeEqualFold_ascii_word by done.
      symmetry. by apply eqb_mapBytes_lower_nonASCII.
    + rewrite foldEqByte_lower by done. simpl.
      destruct (Ascii.eqb _ _); [by apply IH | done].
Qed.

(** C6. Level parsing.  [GetLevelByString] compares its argument, without
    regard to the case of letters, with "debug", "info", "warn", "error"
    and "none" and returns the level of the word that matches; every
    other string, the empty one included, gives [LevelInfo]; the function
    returns one of the five levels on every input. *)
Theorem GetLevelByString_spec (level : string) :
  GetLevelByString level = levelFromString level
  ∧ GetLevelByString "" = LevelInfo
  ∧ In (GetLevelByString level)
      [LevelNone; LevelError; LevelWarn; LevelInfo; LevelDebug].
Proof using unicodeEqualFold_ascii_word.
  assert (H : ∀ s, GetLevelByString s = levelFromString s).
  { intros s. unfold GetLevelByString, levelFromString.
    by rewrite !EqualFold_ascii_word by done. }
  split; [done|]. split; [by rewrite H|].
  rewrite H. unfold levelFromString. simpl.
  repeat (destruct (String.eqb _ _); [tauto|]). tauto.
Qed.

(** ** Dispatch to handlers *)

Lemma rangeHandlers_map_filter impl call handlers :
  rangeHandlers impl call handlers = map call (List.filter impl handlers).
Proof.
  unfold rangeHandlers.
  induction handlers as [|h hs IH]; simpl; [done|].
  rewrite IH. by destruct (impl h).
Qed.

Lemma rangeHandlers_app impl call hs1 hs2 :
  rangeHandlers impl call (hs1 ++ hs2)
  = rangeHandlers impl call hs1 ++ rangeHandlers impl call hs2.
Proof. unfold rangeHandlers. apply flat_map_app. Qed.

Lemma In_rangeHandlers impl call handlers ev :
  In ev (rangeHandlers impl call handlers)
  ↔ ∃ h, ev = call h ∧ In h handlers ∧ impl h = true.
Proof.
  rewrite rangeHandlers_map_filter, in_map_iff.
  split; intros (h & H1 & H2).
  - apply filter_In in H2. exists h. by destruct H2.
  - exists h. split; [done|]. apply filter_In. by destruct H2.
Qed.

Lemma evOf_inj sev msg h1 h2 : evOf sev msg h1 = evOf sev msg h2 → h1 = h2.
Proof. destruct sev; simpl; congruence. Qed.

Lemma evOf_not_Sprintf sev msg h : isSprintf (evOf sev msg h) = false.
Proof. by destruct sev. Qed.

Lemma filter_isSprintf_rangeHandlers sev msg handlers :
  List.filter isSprintf (rangeHandlers (implOf sev) (evOf sev msg) handlers) = [].
Proof.
  rewrite rangeHandlers_map_filter.
  induction (List.filter (implOf sev) handlers) as [|h hs IH]; simpl; [done|].
  by rewrite evOf_not_Sprintf.
Qed.

Lemma AddHandler_Level logger h :
  logger_Level (Logger_AddHandler logger h).1 = logger_Level logger.
Proof. done. Qed.

Lemma AddHandler_Handlers logger h :
  logger_Handlers (Logger_AddHandler logger h).1 = logger_Handlers logger ++ [h].
Proof. done. Qed.

(** The four leveled methods share one shape. *)
Lemma Logger_log_unfold sev logger format v :
  Logger_log sev logger format v
  = if severityLevel sev <=? logger_Level logger
    then EvSprintf format v
           :: rangeHandlers (implOf sev) (evOf sev (Sprintf format v))
                (logger_Handlers logger)
    else [].
Proof.
  destruct sev; simpl;
    unfold Logger_Debug, Logger_Info, Logger_Warn, Logger_Error;
    rewrite N.ltb_antisym; by destruct (_ <=? _).
Qed.

(** C1. Level filtering.  A call of [Debug], [Info], [Warn] or [Error]
    (severity [sev]) evaluates [Sprintf] and offers the message to the
    handlers iff the severity's constant is at most the logger's level;
    when the level is strictly lower the call produces no event at all, so
    the message is not formatted.  A logger at [LevelNone] produces
    nothing for any of the four, a logger at [LevelDebug] formats for each
    of the four. *)
Theorem level_filtering (logger : Logger) (sev : Severity)
    (format : string) (v : list any) :
  let events := Logger_log sev logger format v in
  (In (EvSprintf format v) events
     ↔ severityLevel sev ≤ logger_Level logger)
  ∧ (∀ h, In (evOf sev (Sprintf format v) h) events
          ↔ severityLevel sev ≤ logger_Level logger
            ∧ In h (logger_Handlers logger) ∧ implOf sev h = true)
  ∧ (events = [] ↔ logger_Level logger < severityLevel sev)
  ∧ Logger_log sev
      {| logger_Namespace := logger_Namespace logger;
         logger_Level := LevelNone;
         logger_Handlers := logger_Handlers logger |} format v = []
  ∧ In (EvSprintf format v)
      (Logger_log sev
         {| logger_Namespace := logger_Namespace logger;
            logger_Level := LevelDebug;
            logger_Handlers := logger_Handlers logger |} format v).
Proof.
  intros events. subst events.
  rewrite !Logger_log_unfold. simpl logger_Level.
  assert (Hnone : (severityLevel sev <=? LevelNone) = false) by by destruct sev.
  assert (Hdebug : (severityLevel sev <=? LevelDebug) = true) by by destruct sev.
  rewrite Hnone, Hdebug.
  assert (Hev : ∀ h, In (evOf sev (Sprintf format v) h)
                       (EvSprintf format v
                          :: rangeHandlers (implOf sev)
                               (evOf sev (Sprintf format v))
                               (logger_Handlers logger))
                     ↔ In h (logger_Handlers logger) ∧ implOf sev h = true).
  { intros h. split.
    - intros [Hc|Hin]; [by destruct sev|].
      apply In_rangeHandlers in Hin as (h' & Heq & Hin & Himpl).
      apply evOf_inj in Heq. by subst.
    - intros [Hin Himpl]. right. apply In_rangeHandlers. by exists h. }
  destruct (N.leb_spec (severityLevel sev) (logger_Level logger)) as [Hle|Hlt].
  - split; [split; [done | by left]|].
    split; [intros h; rewrite Hev; tauto|].
    split; [split; [done | lia]|].
    split; [done | by left].
  - split; [split; [intros [] | lia]|].
    split; [intros h; split; [intros [] | lia]|].
    split; [done|].
    split; [done | by left].
Qed.

(** C7. Fan-out order and capability skipping.  When the logger's level
    enables the call, [Sprintf] is evaluated exactly once, and the
    message goes to the handlers that implement the capability of that
    severity, in the order of the handler list, the others being skipped;
    the method of a handler is called iff the handler is attached and
    implements the capability.  [AddHandler] appends, so after attaching
    [H1] then [H2] the call reaches [H1] before [H2], after the handlers
    attached earlier. *)
Theorem fan_out_order (logger : Logger) (sev : Severity)
    (format : string) (v : list any) :
  severityLevel sev ≤ logger_Level logger →
  let msg := Sprintf format v in
  Logger_log sev logger format v
    = EvSprintf format v
        :: map (evOf sev msg) (List.filter (implOf sev) (logger_Handlers logger))
  ∧ length (List.filter isSprintf (Logger_log sev logger format v)) = 1%nat
  ∧ (∀ h, In (evOf sev msg h) (Logger_log sev logger format v)
          ↔ In h (logger_Handlers logger) ∧ implOf sev h = true)
  ∧ ∀ H1 H2,
      Logger_log sev
        (Logger_AddHandler (Logger_AddHandler logger H1).1 H2).1 format v
      = Logger_log sev logger format v
          ++ map (evOf sev msg) (List.filter (implOf sev) [H1; H2]).
Proof.
  intros Hle msg.
  assert (Hb : (severityLevel sev <=? logger_Level logger) = true)
    by by apply N.leb_le.
  rewrite !Logger_log_unfold, Hb. fold msg.
  split; [by rewrite rangeHandlers_map_filter|].
  split; [cbn [List.filter isSprintf];
          by rewrite filter_isSprintf_rangeHandlers|].
  split.
  - intros h. split.
    + intros [Hc|Hin]; [by destruct sev|].
      apply In_rangeHandlers in Hin as (h' & Heq & Hin & Himpl).
      apply evOf_inj in Heq. by subst.
    + intros [Hin Himpl]. right. apply In_rangeHandlers. by exists h.
  - intros H1 H2.
    rewrite Logger_log_unfold, AddHandler_Level, AddHandler_Handlers.
    rewrite AddHandler_Level, AddHandler_Handlers, Hb. fold msg.
    rewrite <- app_assoc, rangeHandlers_app.
    by rewrite (rangeHandlers_map_filter _ _ ([H1] ++ [H2])).
Qed.

(** C8. Init invocation.  [AddHandler(h)] appends [h] to the handler list
    and leaves namespace and level as they are; it calls [h.Init] with
    them when [h] implements [Init], and calls nothing otherwise.
    [SetLevel(l)] sets the level to [l] and then calls [Init], with the
    namespace and the new level, on the attached handlers that implement
    it, in list order, and on no other handler. *)
Theorem init_invocation (logger : Logger) (h : Interface) (level : Level) :
  Logger_AddHandler logger h
    = ({| logger_Namespace := logger_Namespace logger;
          logger_Level := logger_Level logger;
          logger_Handlers := logger_Handlers logger ++ [h] |},
       if implInit h
       then [EvInit h (logger_Namespace logger) (logger_Level logger)]
       else [])
  ∧ Logger_SetLevel logger level
    = ({| logger_Namespace := logger_Namespace logger;
          logger_Level := level;
          logger_Handlers := logger_Handlers logger |},
       map (λ h', EvInit h' (logger_Namespace logger) level)
         (List.filter implInit (logger_Handlers logger)))
  ∧ ∀ ev, In ev (Logger_SetLevel logger level).2
          ↔ ∃ h', ev = EvInit h' (logger_Namespace logger) level
                  ∧ In h' (logger_Handlers logger) ∧ implInit h' = true.
Proof.
  split; [done|].
  split.
  - unfold Logger_SetLevel. simpl. by rewrite rangeHandlers_map_filter.
  - intros ev. unfold Logger_SetLevel. simpl. apply In_rangeHandlers.
Qed.

(** ** Fatal *)

(** C2, as amended.  [Fatal] has the gate of [Error]: when the logger's
    level is at least [LevelError] it evaluates [Sprintf] once, calls
    [Fatal] on the handlers that implement it, in list order, and ends
    the process with status 1, whether or not any handler implements
    [Fatal]; when the level is below [LevelError] it returns to its
    caller without any event and without ending the process. *)
Theorem Fatal_gated (logger : Logger) (format : string) (v : list any) :
  Logger_Fatal logger format v
    = (if LevelError <=? logger_Level logger
       then (EvSprintf format v
               :: map (λ h, EvFatal h (Sprintf format v))
                    (List.filter implFatal (logger_Handlers logger)),
             Exits 1)
       else ([], Returns))
  ∧ ((Logger_Fatal logger format v).2 = Exits 1
       ↔ LevelError ≤ logger_Level logger)
  ∧ ((Logger_Fatal logger format v).2 = Returns
       ↔ logger_Level logger < LevelError)
  ∧ ∀ h, In (EvFatal h (Sprintf format v)) (Logger_Fatal logger format v).1
         ↔ LevelError ≤ logger_Level logger
           ∧ In h (logger_Handlers logger) ∧ implFatal h = true.
Proof.
  unfold Logger_Fatal. rewrite N.ltb_antisym, rangeHandlers_map_filter.
  destruct (N.leb_spec LevelError (logger_Level logger)) as [Hle|Hlt]; simpl.
  - split; [done|]. split; [done|]. split; [split; [done | lia]|].
    intros h. rewrite <- rangeHandlers_map_filter. split.
    + intros [Hc|Hin]; [done|].
      apply In_rangeHandlers in Hin as (h' & Heq & Hin & Himpl).
      injection Heq as ->. done.
    + intros (_ & Hin & Himpl). right. apply In_rangeHandlers. by exists h.
  - split; [done|]. split; [split; [done | lia]|]. split; [done|].
    intros h. split; [intros [] | lia].
Qed.

(** ** The byte-sink adapter *)

Lemma TrimRight_newline_spec (s : string) :
  (∃ k, s = gostrings.TrimRight s newline +:+ newlines k)
  ∧ lastByte (gostrings.TrimRight s newline) ≠ Some "010"%char.
Proof.
  induction s as [|c s [[k IHk] IHl]]; simpl.
  - split; [by exists O | done].
  - destruct (gostrings.TrimRight s newline) as [|d r] eqn:Ht.
    + rewrite orb_false_r.
      destruct (Ascii.eqb_spec c "010"%char) as [->|Hne].
      * split; [|done]. exists (S k). by rewrite IHk at 1.
      * split; [|simpl; congruence]. exists k. by rewrite IHk at 1.
    + split; [|done]. exists k. by rewrite IHk at 1.
Qed.

(** C10. [Write(b)] returns [(len(b), nil)]: the count is the length of
    the input as given, before trimming, and the error is always nil;
    this is so also when the logger's level is below [LevelInfo], in
    which case (and only then) the call produces no event. *)
Theorem Write_returns_len_nil (logger : Logger) (b : list Byte.byte) :
  (Logger_Write logger b).2 = (length b, None)
  ∧ ((Logger_Write logger b).1 = [] ↔ logger_Level logger < LevelInfo).
Proof.
  split; [done|].
  unfold Logger_Write, Logger_Info. simpl. rewrite N.ltb_antisym.
  destruct (N.leb_spec LevelInfo (logger_Level logger)); simpl.
  - split; [done | lia].
  - done.
Qed.

(** [fmt.Sprintf] with the verb ["%s"] and one string returns the string. *)
Hypothesis Sprintf_verb_s : ∀ s, Sprintf "%s" [AnyString s] = s.

(** C9, as amended.  [Write(b)] removes every trailing newline of [b] (the
    message is [b] without its longest suffix of newlines, not only
    without one newline) and forwards the result as one call of [Info]:
    when the level is at least [LevelInfo] the message is formatted once
    and each handler implementing [Info] receives exactly the trimmed
    text, in list order; there is no second record. *)
Theorem Write_forwards_trimmed (logger : Logger) (b : list Byte.byte) :
  let msg := gostrings.TrimRight (string_of_list_byte b) newline in
  (Logger_Write logger b).1 = Logger_Info logger "%s" [AnyString msg]
  ∧ (Logger_Write logger b).1
    = (if LevelInfo <=? logger_Level logger
       then EvSprintf "%s" [AnyString msg]
              :: map (λ h, EvInfo h msg)
                   (List.filter implInfo (logger_Handlers logger))
       else [])
  ∧ (∃ k, string_of_list_byte b = msg +:+ newlines k)
  ∧ lastByte msg ≠ Some "010"%char.
Proof using Sprintf_verb_s.
  intros msg. split; [done|].
  split; [|apply TrimRight_newline_spec].
  unfold Logger_Write, Logger_Info. simpl. fold msg.
  rewrite N.ltb_antisym, rangeHandlers_map_filter, Sprintf_verb_s.
  by destruct (LevelInfo <=? logger_Level logger).
Qed.

(** ** The registry *)

Lemma ToLower_empty : ToLower "" = "".
Proof. done. Qed.

Lemma rangeLoggers_true (keys : list string) :
  rangeLoggers keys = true ↔ ∃ k, k ∈ keys ∧ k ≠ "".
Proof.
  induction keys as [|k keys IH]; simpl.
  - split; [done|]. intros (k & Hk & _). by apply elem_of_nil in Hk.
  - destruct (String.eqb_spec k "") as [->|Hne]; simpl.
    + rewrite IH. split.
      * intros (k & Hk & Hne). exists k. split; [by right | done].
      * intros (k & Hk & Hne). exists k. split; [|done].
        apply elem_of_cons in Hk as [->|Hk]; done.
    + split; [|done]. intros _. exists k. split; [by left | done].
Qed.

(** The outcome of the loop does not depend on the order in which the
    iteration visits the keys. *)
Lemma rangeLoggers_Permutation (keys keys' : list string) :
  keys ≡ₚ keys' → rangeLoggers keys = rangeLoggers keys'.
Proof.
  intros Hp. apply eq_true_iff_eq. rewrite !rangeLoggers_true.
  by setoid_rewrite Hp.
Qed.

Lemma rangeLoggers_map (m : gmap string loc) :
  rangeLoggers (map_to_list m).*1 = true
  ↔ ∃ k, k ≠ "" ∧ is_Some (m !! k).
Proof.
  rewrite rangeLoggers_true. split.
  - intros (k & Hk & Hne). exists k. split; [done|].
    apply list_elem_of_fmap in Hk as ([k' p] & -> & Hk).
    apply elem_of_map_to_list in Hk. by exists p.
  - intros (k & Hne & [p Hp]). exists k. split; [|done].
    apply list_elem_of_fmap. exists (k, p). split; [done|].
    by apply elem_of_map_to_list.
Qed.

Lemma rangeLoggers_false_delete (m : gmap string loc) :
  rangeLoggers (map_to_list m).*1 = false → delete "" m = ∅.
Proof.
  intros Hf. apply map_eq. intros k. rewrite lookup_empty.
  destruct (decide (k = "")) as [->|Hne]; [apply lookup_delete_eq|].
  rewrite lookup_delete_ne by done.
  destruct (m !! k) as [p|] eqn:Hk; [|done].
  assert (rangeLoggers (map_to_list m).*1 = true) as Ht; [|congruence].
  apply rangeLoggers_map. exists k. by rewrite Hk.
Qed.

Lemma Namespace_existing (namespace : string) (w : World) (p : loc) :
  loggers w !! ToLower namespace = Some p → Namespace namespace w = (p, w).
Proof. intros H. unfold Namespace. by rewrite H. Qed.

Lemma Namespace_new (namespace : string) (w : World) :
  loggers w !! ToLower namespace = None →
  Namespace namespace w
  = (fresh (dom (heap w)),
     {| heap :=
          <[fresh (dom (heap w)) :=
              {| logger_Namespace := namespace;
                 logger_Level := GetLevelByString (getEnvVarLevel w namespace);
                 logger_Handlers := [DefaultHandler] |}]> (heap w);
        loggers := <[ToLower namespace := fresh (dom (heap w))]> (loggers w);
        defaultEnvironmentVariablePrefix := defaultEnvironmentVariablePrefix w;
        DefaultLogger := DefaultLogger w;
        environ := environ w;
        output :=
          output w
            ++ (if implInit DefaultHandler
                then [EvInit DefaultHandler namespace
                        (GetLevelByString (getEnvVarLevel w namespace))]
                else []) |}).
Proof. intros H. unfold Namespace. by rewrite H. Qed.

(** C4. Prefix-change guard.  [SetDefaultEnvironmentVariablePrefix]
    (and [setEnvironmentVariablePrefix], whose error it returns) fails
    iff the registry holds a key other than the empty one, whatever the
    order in which the keys are visited; on failure the world, and so
    the prefix, the registry and every logger, is as before; on success
    the root entry is removed and the prefix replaced, and the root
    logger that [Namespace("")] then constructs has the level that the
    environment gives under the new prefix. *)
Theorem prefix_change_guard (prefix : string) (w : World) :
  let r0 := setEnvironmentVariablePrefix prefix w in
  let r := SetDefaultEnvironmentVariablePrefix prefix w in
  r.1 = r0.1
  ∧ (is_Some r.1 ↔ ∃ k, k ≠ "" ∧ is_Some (loggers w !! k))
  ∧ (∀ keys, keys ≡ₚ (map_to_list (loggers w)).*1 →
             rangeLoggers keys = rangeLoggers (map_to_list (loggers w)).*1)
  ∧ match r.1 with
    | Some _ => r0.2 = w ∧ r.2 = w
    | None =>
        let p := fresh (dom (heap w)) in
        let level :=
          GetLevelByString
            (ToLower (default "" (environ w !! prefix))) in
        r0.2 = {| heap := heap w;
                  loggers := delete "" (loggers w);
                  defaultEnvironmentVariablePrefix := prefix;
                  DefaultLogger := DefaultLogger w;
                  environ := environ w;
                  output := output w |}
        ∧ Namespace "" r0.2
          = (p,
             {| heap := heap r.2;
                loggers := loggers r.2;
                defaultEnvironmentVariablePrefix := prefix;
                DefaultLogger := DefaultLogger w;
                environ := environ w;
                output := output r.2 |})
        ∧ heap w !! p = None
        ∧ heap r.2
          = <[p := {| logger_Namespace := "";
                      logger_Level := level;
                      logger_Handlers := [DefaultHandler] |}]> (heap w)
        ∧ loggers r.2 = {[ "" := p ]}
        ∧ defaultEnvironmentVariablePrefix r.2 = prefix
        ∧ DefaultLogger r.2 = Some p
        ∧ environ r.2 = environ w
    end.
Proof.
  intros r0 r. subst r0 r.
  unfold SetDefaultEnvironmentVariablePrefix, setEnvironmentVariablePrefix.
  pose proof (rangeLoggers_map (loggers w)) as Hmap.
  destruct (rangeLoggers (map_to_list (loggers w)).*1) eqn:Hscan.
  - simpl. split; [done|]. split; [by rewrite <- Hmap|].
    split; [intros keys Hp; by rewrite (rangeLoggers_Permutation _ _ Hp)|].
    done.
  - rewrite Namespace_new by (simpl; rewrite ToLower_empty; apply lookup_delete_eq).
    simpl. split; [done|].
    split.
    { rewrite <- Hmap. split; [by intros [? ?] | done]. }
    split; [intros keys Hp; by rewrite (rangeLoggers_Permutation _ _ Hp)|].
    assert (Hlevel : getEnvVarLevel
              {| heap := heap w;
                 loggers := delete "" (loggers w);
                 defaultEnvironmentVariablePrefix := prefix;
                 DefaultLogger := DefaultLogger w;
                 environ := environ w;
                 output := output w |} ""
            = ToLower (default "" (environ w !! prefix))).
    { unfold getEnvVarLevel, Getenv. simpl. rewrite append_nil_r.
      by destruct (String.eqb _ ""). }
    rewrite (Namespace_new "")
      by (simpl; rewrite ToLower_empty; apply lookup_delete_eq).
    simpl. rewrite Hlevel, ToLower_empty.
    split; [done|]. split; [done|].
    split; [apply not_elem_of_dom, is_fresh|].
    split; [done|].
    split; [by rewrite (rangeLoggers_false_delete _ Hscan)|].
    done.
Qed.

(** *** What each call does to the registry and to the loggers *)

Lemma setEnvironmentVariablePrefix_fields (prefix : string) (w : World) :
  heap (setEnvironmentVariablePrefix prefix w).2 = heap w
  ∧ (loggers (setEnvironmentVariablePrefix prefix w).2 = loggers w
     ∨ loggers (setEnvironmentVariablePrefix prefix w).2 = delete "" (loggers w)).
Proof.
  unfold setEnvironmentVariablePrefix.
  destruct (rangeLoggers _); simpl; auto.
Qed.

Lemma SetDefaultEnvironmentVariablePrefix_fields (prefix : string) (w : World) :
  (heap (SetDefaultEnvironmentVariablePrefix prefix w).2 = heap w
   ∧ loggers (SetDefaultEnvironmentVariablePrefix prefix w).2 = loggers w)
  ∨ (heap (SetDefaultEnvironmentVariablePrefix prefix w).2
     = heap (Namespace "" (setEnvironmentVariablePrefix prefix w).2).2
     ∧ loggers (SetDefaultEnvironmentVariablePrefix prefix w).2
       = loggers (Namespace "" (setEnvironmentVariablePrefix prefix w).2).2).
Proof.
  unfold SetDefaultEnvironmentVariablePrefix.
  destruct (setEnvironmentVariablePrefix prefix w) as [[err|] w'] eqn:He.
  - left. unfold setEnvironmentVariablePrefix in He.
    destruct (rangeLoggers _); by simplify_eq.
  - right. simpl. by destruct (Namespace "" w').
Qed.

Lemma onLogger_Some (p : loc) (method : Logger → Logger * list Event)
    (w w' : World) :
  onLogger p method w = Some w' →
  ∃ l, heap w !! p = Some l
       ∧ heap w' = <[p := (method l).1]> (heap w)
       ∧ loggers w' = loggers w.
Proof.
  unfold onLogger. destruct (heap w !! p) as [l|]; [|done].
  destruct (method l) as [l' ev] eqn:Hm. intros [= <-].
  exists l. by rewrite Hm.
Qed.

(** A call through a pointer leaves the [Namespace] field as it is. *)
Lemma exec_onLogger (c : Call) (w w' : World) :
  changesPrefix c = false →
  (∀ namespace, c ≠ CallNamespace namespace) →
  exec c w = Some w' →
  ∃ p l l', heap w !! p = Some l
            ∧ logger_Namespace l' = logger_Namespace l
            ∧ heap w' = <[p := l']> (heap w)
            ∧ loggers w' = loggers w.
Proof.
  intros Hc Hn He.
  destruct c as [n|?|?|p level|p h|sev p format v|p b]; simpl in *;
    try done; [by destruct (Hn n)|..];
    apply onLogger_Some in He as (l & Hl & Hh & Hr);
    exists p, l; eexists; (split; [done|]); (split; [|done]); done.
Qed.

(** *** Bindings of the registry persist *)

Lemma Namespace_binding (namespace : string) (w : World) (k : string) (p : loc) :
  loggers w !! k = Some p → loggers (Namespace namespace w).2 !! k = Some p.
Proof.
  intros Hk. destruct (loggers w !! ToLower namespace) as [q|] eqn:Hn.
  - by rewrite (Namespace_existing _ _ _ Hn).
  - rewrite (Namespace_new _ _ Hn). simpl.
    rewrite lookup_insert_ne; [done|]. intros <-. congruence.
Qed.

Lemma Namespace_returns_binding (namespace : string) (w : World) :
  loggers (Namespace namespace w).2 !! ToLower namespace
  = Some (Namespace namespace w).1.
Proof.
  destruct (loggers w !! ToLower namespace) as [q|] eqn:Hn.
  - by rewrite (Namespace_existing _ _ _ Hn).
  - rewrite (Namespace_new _ _ Hn). simpl. apply lookup_insert_eq.
Qed.

Lemma exec_binding (c : Call) (w w' : World) (k : string) (p : loc) :
  exec c w = Some w' →
  k ≠ "" ∨ changesPrefix c = false →
  loggers w !! k = Some p → loggers w' !! k = Some p.
Proof.
  intros He Hk Hb.
  destruct c as [n|prefix|prefix|q level|q h|sev q format v|q b]; simpl in *.
  - injection He as <-. by apply Namespace_binding.
  - destruct Hk as [Hk|]; [|done]. injection He as <-.
    destruct (setEnvironmentVariablePrefix_fields prefix w) as [_ [-> | ->]];
      [done | by rewrite lookup_delete_ne].
  - destruct Hk as [Hk|]; [|done]. injection He as <-.
    destruct (SetDefaultEnvironmentVariablePrefix_fields prefix w)
      as [[_ ->] | [_ ->]]; [done|].
    apply Namespace_binding.
    destruct (setEnvironmentVariablePrefix_fields prefix w) as [_ [-> | ->]];
      [done | by rewrite lookup_delete_ne].
  - apply onLogger_Some in He as (l & _ & _ & ->). done.
  - apply onLogger_Some in He as (l & _ & _ & ->). done.
  - apply onLogger_Some in He as (l & _ & _ & ->). done.
  - apply onLogger_Some in He as (l & _ & _ & ->). done.
Qed.

Lemma run_binding (cs : list Call) (w w' : World) (k : string) (p : loc) :
  run cs w = Some w' →
  k ≠ "" ∨ noPrefixChange cs = true →
  loggers w !! k = Some p → loggers w' !! k = Some p.
Proof.
  revert w. induction cs as [|c cs IH]; intros w Hr Hk Hb; simpl in *.
  - by injection Hr as <-.
  - destruct (exec c w) as [w1|] eqn:He; [|done].
    apply (IH w1); [done | |].
    + destruct Hk as [Hk|Hk]; [by left | right].
      by apply andb_true_iff in Hk as [_ Hk].
    + apply (exec_binding c w); [done | | done].
      destruct Hk as [Hk|Hk]; [by left | right].
      apply andb_true_iff in Hk as [Hk _]. by apply negb_true_iff.
Qed.

Lemma Call_Namespace_or_not (c : Call) :
  (∃ namespace, c = CallNamespace namespace)
  ∨ (∀ namespace, c ≠ CallNamespace namespace).
Proof. destruct c; eauto. Qed.

(** *** The invariants hold in every world the program can reach *)

Lemma Namespace_allocated (namespace : string) (w : World) :
  allocated w → allocated (Namespace namespace w).2.
Proof.
  intros Ha. destruct (loggers w !! ToLower namespace) as [q|] eqn:Hn.
  - by rewrite (Namespace_existing _ _ _ Hn).
  - rewrite (Namespace_new _ _ Hn). intros k p. simpl.
    destruct (decide (ToLower namespace = k)) as [<-|Hne].
    + rewrite lookup_insert_eq. intros [= <-]. by rewrite lookup_insert_eq.
    + rewrite lookup_insert_ne by done. intros Hk.
      apply lookup_insert_is_Some'. right. by apply (Ha k).
Qed.

Lemma Namespace_registered (K : string → Prop) (namespace : string) (w : World) :
  registered K w → registered K (Namespace namespace w).2.
Proof.
  intros Hr. destruct (loggers w !! ToLower namespace) as [q|] eqn:Hn.
  - by rewrite (Namespace_existing _ _ _ Hn).
  - rewrite (Namespace_new _ _ Hn). intros p l. simpl.
    destruct (decide (fresh (dom (heap w)) = p)) as [<-|Hne].
    + rewrite lookup_insert_eq. intros [= <-] _. simpl.
      apply lookup_insert_eq.
    + rewrite lookup_insert_ne by done. intros Hp HK.
      pose proof (Hr p l Hp HK) as Hb.
      rewrite lookup_insert_ne; [done|]. intros Heq. congruence.
Qed.

Lemma delete_root_allocated (w w' : World) :
  heap w' = heap w →
  loggers w' = loggers w ∨ loggers w' = delete "" (loggers w) →
  allocated w → allocated w'.
Proof.
  intros Hh Hl Ha k p. rewrite Hh. destruct Hl as [-> | ->]; [apply Ha|].
  intros Hk. apply lookup_delete_Some in Hk as [_ Hk]. by apply (Ha k).
Qed.

Lemma delete_root_registered (K : string → Prop) (w w' : World) :
  (∀ k, K k → k ≠ "") →
  heap w' = heap w →
  loggers w' = loggers w ∨ loggers w' = delete "" (loggers w) →
  registered K w → registered K w'.
Proof.
  intros HK Hh Hl Hr p l. rewrite Hh. destruct Hl as [-> | ->]; [apply Hr|].
  intros Hp Hk. rewrite lookup_delete_ne; [by apply Hr|].
  intros Heq. by apply (HK _ Hk).
Qed.

Lemma fields_allocated (w w' : World) :
  heap w' = heap w → loggers w' = loggers w → allocated w → allocated w'.
Proof. intros Hh Hl Ha k p. rewrite Hh, Hl. apply Ha. Qed.

Lemma fields_registered (K : string → Prop) (w w' : World) :
  heap w' = heap w → loggers w' = loggers w → registered K w → registered K w'.
Proof. intros Hh Hl Hr p l. rewrite Hh, Hl. apply Hr. Qed.

Lemma exec_allocated (c : Call) (w w' : World) :
  exec c w = Some w' → allocated w → allocated w'.
Proof.
  intros He Ha.
  destruct (changesPrefix c) eqn:Hc.
  - destruct c as [|prefix|prefix| | | |]; try done; simpl in He;
      injection He as <-.
    + destruct (setEnvironmentVariablePrefix_fields prefix w) as [Hh Hl].
      by apply (delete_root_allocated w).
    + destruct (setEnvironmentVariablePrefix_fields prefix w) as [Hh Hl].
      destruct (SetDefaultEnvironmentVariablePrefix_fields prefix w)
        as [[Hh' Hl'] | [Hh' Hl']].
      * by apply (fields_allocated w).
      * eapply fields_allocated; [done | done |].
        apply Namespace_allocated. by apply (delete_root_allocated w).
  - destruct (Call_Namespace_or_not c) as [[n ->]|Hn].
    + simpl in He. injection He as <-. by apply Namespace_allocated.
    + apply exec_onLogger in He as (p & l & l' & Hl & Hns & Hh & Hr);
        [|done|done].
      intros k q. rewrite Hh, Hr. intros Hk.
      apply lookup_insert_is_Some'. right. by apply (Ha k).
Qed.

Lemma exec_registered (K : string → Prop) (c : Call) (w w' : World) :
  (∀ k, K k → k ≠ "") ∨ changesPrefix c = false →
  exec c w = Some w' → registered K w → registered K w'.
Proof.
  intros HK He Hreg.
  destruct (changesPrefix c) eqn:Hc.
  - destruct HK as [HK|]; [|done].
    destruct c as [|prefix|prefix| | | |]; try done; simpl in He;
      injection He as <-.
    + destruct (setEnvironmentVariablePrefix_fields prefix w) as [Hh Hl].
      by apply (delete_root_registered K w).
    + destruct (setEnvironmentVariablePrefix_fields prefix w) as [Hh Hl].
      destruct (SetDefaultEnvironmentVariablePrefix_fields prefix w)
        as [[Hh' Hl'] | [Hh' Hl']].
      * by apply (fields_registered K w).
      * eapply fields_registered; [done | done |].
        apply Namespace_registered. by apply (delete_root_registered K w).
  - destruct (Call_Namespace_or_not c) as [[n ->]|Hn].
    + simpl in He. injection He as <-. by apply Namespace_registered.
    + apply exec_onLogger in He as (p & l & l' & Hl & Hns & Hh & Hr);
        [|done|done].
      intros q lq. rewrite Hh, Hr.
      destruct (decide (p = q)) as [<-|Hne].
      * rewrite lookup_insert_eq. intros [= <-]. rewrite Hns. by apply Hreg.
      * rewrite lookup_insert_ne by done. apply Hreg.
Qed.

Lemma run_allocated (cs : list Call) (w w' : World) :
  run cs w = Some w' → allocated w → allocated w'.
Proof.
  revert w. induction cs as [|c cs IH]; intros w Hr Ha; simpl in *.
  - by injection Hr as <-.
  - destruct (exec c w) as [w1|] eqn:He; [|done].
    apply (IH w1); [done|]. by apply (exec_allocated c w).
Qed.

Lemma run_registered (K : string → Prop) (cs : list Call) (w w' : World) :
  (∀ k, K k → k ≠ "") ∨ noPrefixChange cs = true →
  run cs w = Some w' → registered K w → registered K w'.
Proof.
  revert w. induction cs as [|c cs IH]; intros w HK Hr Hreg; simpl in *.
  - by injection Hr as <-.
  - destruct (exec c w) as [w1|] eqn:He; [|done].
    apply (IH w1); [| done |].
    + destruct HK as [HK|HK]; [by left | right].
      by apply andb_true_iff in HK as [_ HK].
    + apply (exec_registered K c w); [| done | done].
      destruct HK as [HK|HK]; [by left | right].
      apply andb_true_iff in HK as [HK _]. by apply negb_true_iff.
Qed.

Lemma init_invariants (env : gmap string string) :
  allocated (init env) ∧ registered (λ _, True) (init env).
Proof.
  unfold init. rewrite Namespace_new by done. simpl. split.
  - intros k p. simpl. intros Hk.
    apply lookup_insert_Some in Hk as [[_ <-]|[_ Hk]]; [|done].
    by rewrite lookup_insert_eq.
  - intros p l. simpl. intros Hp _.
    apply lookup_insert_Some in Hp as [[<- <-]|[_ Hp]]; [|done].
    simpl. apply lookup_insert_eq.
Qed.

(** ** Namespace lookup *)

(** A prefix change that is refused leaves the world as it is. *)
Lemma refused_prefix_change (c : Call) (w : World) :
  changesPrefix c = true → succeedsPrefixChange c w = false →
  exec c w = Some w.
Proof.
  intros Hc Hs.
  destruct c as [|prefix|prefix| | | |]; try done; simpl in *.
  - unfold setEnvironmentVariablePrefix in *.
    by destruct (rangeLoggers _).
  - unfold SetDefaultEnvironmentVariablePrefix, setEnvironmentVariablePrefix
      in *.
    destruct (rangeLoggers _); [done|].
    simpl in Hs. by destruct (Namespace "" _).
Qed.

Lemma succeedsPrefixChange_changesPrefix (c : Call) (w : World) :
  changesPrefix c = false → succeedsPrefixChange c w = false.
Proof. by destruct c. Qed.

Lemma exec_binding_refused (c : Call) (w w' : World) (k : string) (p : loc) :
  exec c w = Some w' →
  k ≠ "" ∨ succeedsPrefixChange c w = false →
  loggers w !! k = Some p → loggers w' !! k = Some p.
Proof.
  intros He [Hk|Hs] Hb; [by apply (exec_binding c w); [|left|]|].
  destruct (changesPrefix c) eqn:Hc.
  - rewrite (refused_prefix_change c w Hc Hs) in He. by injection He as <-.
  - by apply (exec_binding c w); [|right|].
Qed.

Lemma run_binding_refused (cs : list Call) (w w' : World) (k : string)
    (p : loc) :
  run cs w = Some w' →
  k ≠ "" ∨ noSuccessfulPrefixChange cs w = true →
  loggers w !! k = Some p → loggers w' !! k = Some p.
Proof.
  revert w. induction cs as [|c cs IH]; intros w Hr Hk Hb; simpl in *.
  - by injection Hr as <-.
  - destruct (exec c w) as [w1|] eqn:He; [|done].
    apply (IH w1); [done | |].
    + destruct Hk as [Hk|Hk]; [by left | right].
      by apply andb_true_iff in Hk as [_ Hk].
    + apply (exec_binding_refused c w); [done | | done].
      destruct Hk as [Hk|Hk]; [by left | right].
      apply andb_true_iff in Hk as [Hk _]. by apply negb_true_iff.
Qed.

Lemma exec_registered_refused (K : string → Prop) (c : Call) (w w' : World) :
  (∀ k, K k → k ≠ "") ∨ succeedsPrefixChange c w = false →
  exec c w = Some w' → registered K w → registered K w'.
Proof.
  intros [HK|Hs] He Hreg; [by apply (exec_registered K c w); [left|..]|].
  destruct (changesPrefix c) eqn:Hc.
  - rewrite (refused_prefix_change c w Hc Hs) in He. by injection He as <-.
  - by apply (exec_registered K c w); [right|..].
Qed.

Lemma run_registered_refused (K : string → Prop) (cs : list Call)
    (w w' : World) :
  (∀ k, K k → k ≠ "") ∨ noSuccessfulPrefixChange cs w = true →
  run cs w = Some w' → registered K w → registered K w'.
Proof.
  revert w. induction cs as [|c cs IH]; intros w HK Hr Hreg; simpl in *.
  - by injection Hr as <-.
  - destruct (exec c w) as [w1|] eqn:He; [|done].
    apply (IH w1); [| done |].
    + destruct HK as [HK|HK]; [by left | right].
      by apply andb_true_iff in HK as [_ HK].
    + apply (exec_registered_refused K c w); [| done | done].
      destruct HK as [HK|HK]; [by left | right].
      apply andb_true_iff in HK as [HK _]. by apply negb_true_iff.
Qed.

(** C3, as amended.  In every world the program reaches from its
    initialisation: two calls of [Namespace] with names that are equal
    in lower case return the same pointer, whatever calls are made
    between them, provided the folded name is not empty or no prefix
    change succeeds among those calls (one that is refused does no
    harm); the second call changes nothing, and the pointer addresses a
    [Logger] of the heap, so level and handler list are the ones of that
    single struct.  Accordingly two [Logger]s that have been constructed
    with the same folded name are one and the same, provided that name
    is not empty or no prefix change has succeeded.  (A successful
    prefix change removes the root entry, and the next [Namespace("")]
    constructs another root logger.) *)
Theorem Namespace_idempotent (env : gmap string string) (pre : list Call)
    (w : World) :
  run pre (init env) = Some w →
  (∀ n1 n2 mid w2,
     ToLower n1 = ToLower n2 →
     run mid (Namespace n1 w).2 = Some w2 →
     ToLower n1 ≠ "" ∨ noSuccessfulPrefixChange mid (Namespace n1 w).2 = true →
     Namespace n2 w2 = ((Namespace n1 w).1, w2)
     ∧ is_Some (heap w2 !! (Namespace n1 w).1))
  ∧ (∀ p1 p2 l1 l2,
       heap w !! p1 = Some l1 → heap w !! p2 = Some l2 →
       ToLower (logger_Namespace l1) = ToLower (logger_Namespace l2) →
       ToLower (logger_Namespace l1) ≠ ""
       ∨ noSuccessfulPrefixChange pre (init env) = true →
       p1 = p2).
Proof.
  intros Hrun. destruct (init_invariants env) as [Hia Hir]. split.
  - intros n1 n2 mid w2 Hfold Hmid Hk.
    assert (Hb : loggers w2 !! ToLower n2 = Some (Namespace n1 w).1).
    { rewrite <- Hfold.
      apply (run_binding_refused mid (Namespace n1 w).2); [done..|].
      apply Namespace_returns_binding. }
    split; [by apply Namespace_existing|].
    assert (Ha : allocated w2).
    { apply (run_allocated mid (Namespace n1 w).2); [done|].
      apply Namespace_allocated. by apply (run_allocated pre (init env)). }
    by apply (Ha (ToLower n2)).
  - intros p1 p2 l1 l2 H1 H2 Hfold [Hne|Hnp].
    + assert (Hreg : registered (λ k, k ≠ "") w).
      { apply (run_registered_refused _ pre (init env)); [by left | done |].
        intros p l Hp _. by apply Hir. }
      pose proof (Hreg p1 l1 H1 Hne) as Hb1.
      rewrite Hfold in Hne. pose proof (Hreg p2 l2 H2 Hne) as Hb2.
      congruence.
    + assert (Hreg : registered (λ _, True) w).
      { apply (run_registered_refused _ pre (init env));
          [by right | done | done]. }
      pose proof (Hreg p1 l1 H1 I) as Hb1.
      pose proof (Hreg p2 l2 H2 I) as Hb2. congruence.
Qed.

End Facts.

(** * The statements at concrete inputs *)

(** C2, the claim as stated fails.  A logger at [LevelNone] with a
    handler that implements [Fatal]: the call returns to its caller; no
    handler is called and the process does not end. *)
Lemma Fatal_returns_below_LevelError :
  Logger_Fatal (ext := sampleExternal) quietLogger "disk full" []
    = ([], Returns)
  ∧ ∀ code,
      (Logger_Fatal (ext := sampleExternal) quietLogger "disk full" []).2
        ≠ Exits code.
Proof. split; [reflexivity | intros code; discriminate]. Qed.

(** C9, the claim as stated fails.  Written with two trailing newlines,
    "hello" reaches the handler without either of them, where removing a
    single newline would leave one. *)
Lemma Write_trims_both_newlines :
  (Logger_Write (ext := sampleExternal) infoLogger helloTwoLines).1
    = [EvSprintf "%s" [AnyString "hello"]; EvInfo (fullHandler 1) "hello"]
  ∧ trimSingleNewline (string_of_list_byte helloTwoLines)
    = "hello" +:+ newlines 1
  ∧ (Logger_Write (ext := sampleExternal) infoLogger helloTwoLines).1
    ≠ Logger_Info (ext := sampleExternal) infoLogger "%s"
        [AnyString (trimSingleNewline (string_of_list_byte helloTwoLines))].
Proof. split; [reflexivity|]. split; [reflexivity|]. discriminate. Qed.

(** C3, the claim as stated fails.  After the initialisation, which
    constructs the root logger, a prefix change succeeds and constructs
    a second root logger: [Namespace("")] before and after return
    different pointers, and both [Logger]s exist. *)
Lemma root_logger_constructed_twice :
  let w0 := init (ext := sampleExternal) ∅ in
  let r1 := Namespace (ext := sampleExternal) "" w0 in
  let w2 :=
    (SetDefaultEnvironmentVariablePrefix (ext := sampleExternal) "APP" r1.2).2 in
  let r2 := Namespace (ext := sampleExternal) "" w2 in
  r1.1 ≠ r2.1
  ∧ logger_Namespace <$> heap r2.2 !! r1.1 = Some ""
  ∧ logger_Namespace <$> heap r2.2 !! r2.1 = Some "".
Proof. vm_compute. split; [discriminate|]. split; reflexivity. Qed.

(** [fan_out_order] on a logger at [LevelInfo] to which a handler, a
    handler without capabilities and a third handler are attached in turn. *)
Lemma fan_out_order_witness :
  (severityLevel SevInfo ≤ logger_Level infoLogger)%N
  ∧ Logger_Info (ext := sampleExternal)
      (Logger_AddHandler
         (Logger_AddHandler (Logger_AddHandler infoLogger (fullHandler 2)).1
            (bareHandler 3)).1 (fullHandler 4)).1
      "%s" [AnyString "up"]
    = [EvSprintf "%s" [AnyString "up"];
       EvInfo (fullHandler 1) "up";
       EvInfo (fullHandler 2) "up";
       EvInfo (fullHandler 4) "up"].
Proof.
  assert (H : (severityLevel SevInfo ≤ logger_Level infoLogger)%N)
    by (vm_compute; discriminate).
  split; [exact H|].
  exact (proj1 (fan_out_order (ext := sampleExternal)
                  (Logger_AddHandler
                     (Logger_AddHandler
                        (Logger_AddHandler infoLogger (fullHandler 2)).1
                        (bareHandler 3)).1 (fullHandler 4)).1
                  SevInfo "%s" [AnyString "up"] H)).
Defined.

(** [Write_forwards_trimmed] on the payload "hello" and one newline: one
    record, with the text "hello". *)
Lemma Write_forwards_trimmed_witness :
  (∀ s, Sprintf (External := sampleExternal) "%s" [AnyString s] = s)
  ∧ (Logger_Write (ext := sampleExternal) infoLogger helloLine).1
    = [EvSprintf "%s" [AnyString "hello"]; EvInfo (fullHandler 1) "hello"].
Proof.
  assert (H : ∀ s, Sprintf (External := sampleExternal) "%s" [AnyString s] = s)
    by (intros s; reflexivity).
  split; [exact H|].
  exact (proj1 (proj2 (Write_forwards_trimmed (ext := sampleExternal) H
                         infoLogger helloLine))).
Defined.

(** [getEnvVarLevel_resolution] at concrete keys: the namespace
    "Pay-Ments.v2" reads [SEVERINO_LOGGER_PAY_MENTS_V2], whose value
    "DeBuG" comes back as "debug"; "billing", which has no variable of
    its own, and the empty namespace get the value of
    [SEVERINO_LOGGER]. *)
Lemma getEnvVarLevel_resolution_witness :
  let w := init (ext := sampleExternal) sampleKeyEnv in
  defaultEnvironmentVariablePrefix w +:+ "_"
    +:+ gostrings.Replace
          (gostrings.Replace
             (gostrings.ToUpper (@unicodeToUpper sampleExternal) "Pay-Ments.v2")
             "-" "_" (-1)) "." "_" (-1)
  = "SEVERINO_LOGGER_PAY_MENTS_V2"
  ∧ getEnvVarLevel (ext := sampleExternal) w "Pay-Ments.v2" = "debug"
  ∧ getEnvVarLevel (ext := sampleExternal) w "billing" = "warn"
  ∧ getEnvVarLevel (ext := sampleExternal) w "" = "warn".
Proof.
  intros w.
  split.
  - exact (eq_trans
             (eq_sym (proj1 (proj2 (getEnvVarLevel_resolution
                                      (ext := sampleExternal) w "Pay-Ments.v2"))))
             eq_refl).
  - split; [|split].
    + exact (eq_trans (proj1 (getEnvVarLevel_resolution
                                (ext := sampleExternal) w "Pay-Ments.v2"))
               eq_refl).
    + exact (eq_trans (proj1 (getEnvVarLevel_resolution
                                (ext := sampleExternal) w "billing"))
               eq_refl).
    + exact (eq_trans (proj1 (getEnvVarLevel_resolution
                                (ext := sampleExternal) w ""))
               eq_refl).
Defined.

(** [GetLevelByString_spec] with the sample library functions. *)
Lemma GetLevelByString_spec_witness :
  (∀ sr s t,
     (gostrings.RuneSelf ≤ gostrings.byte_val sr)%N →
     foldsWithinASCII t = true →
     unicodeEqualFold (External := sampleExternal) (String sr s) t = false)
  ∧ GetLevelByString (ext := sampleExternal) "WaRn" = LevelWarn
  ∧ GetLevelByString (ext := sampleExternal) "bogus" = LevelInfo.
Proof.
  assert (H : ∀ sr s t,
             (gostrings.RuneSelf ≤ gostrings.byte_val sr)%N →
             foldsWithinASCII t = true →
             unicodeEqualFold (External := sampleExternal) (String sr s) t
             = false)
    by (intros sr s t _ _; reflexivity).
  split; [exact H|].
  split.
  - exact (proj1 (GetLevelByString_spec (ext := sampleExternal) H "WaRn")).
  - exact (proj1 (GetLevelByString_spec (ext := sampleExternal) H "bogus")).
Defined.

(** [Namespace_idempotent] on the root name around a refused prefix
    change: the root logger is looked up, namespace "x" is created, a
    prefix change is refused, the root's level is changed, and the root
    logger is looked up again. *)
Lemma Namespace_idempotent_witness :
  let w := worldAfter sampleCalls (init (ext := sampleExternal) ∅) in
  let p := (Namespace (ext := sampleExternal) "" w).1 in
  let w2 := worldAfter rootMid (Namespace (ext := sampleExternal) "" w).2 in
  run (ext := sampleExternal) sampleCalls (init (ext := sampleExternal) ∅)
    = Some w
  ∧ run (ext := sampleExternal) rootMid
      (Namespace (ext := sampleExternal) "" w).2 = Some w2
  ∧ changesPrefix (CallSetDefaultEnvironmentVariablePrefix "APP") = true
  ∧ noSuccessfulPrefixChange (ext := sampleExternal) rootMid
      (Namespace (ext := sampleExternal) "" w).2 = true
  ∧ Namespace (ext := sampleExternal) "" w2 = (p, w2)
  ∧ is_Some (heap w2 !! p).
Proof.
  intros w p w2.
  assert (H1 : run (ext := sampleExternal) sampleCalls
                 (init (ext := sampleExternal) ∅) = Some w)
    by (vm_compute; reflexivity).
  assert (H3 : run (ext := sampleExternal) rootMid
                 (Namespace (ext := sampleExternal) "" w).2 = Some w2)
    by (vm_compute; reflexivity).
  assert (H4 : noSuccessfulPrefixChange (ext := sampleExternal) rootMid
                 (Namespace (ext := sampleExternal) "" w).2 = true)
    by (vm_compute; reflexivity).
  split; [exact H1|]. split; [exact H3|]. split; [reflexivity|].
  split; [exact H4|].
  exact (proj1 (Namespace_idempotent (ext := sampleExternal) ∅ sampleCalls w H1)
           "" "" rootMid w2 eq_refl H3 (or_intror H4)).
Defined.

(** ** The examples of the specification *)

(** With [PREFIX=warn] and [PREFIX_PAYMENTS=debug], "payments" resolves
    to [LevelDebug] and "billing" to [LevelWarn]. *)
Example env_override_precedence :
  let w := init (ext := sampleExternal) sampleEnv in
  let r1 := Namespace (ext := sampleExternal) "payments" w in
  let r2 := Namespace (ext := sampleExternal) "billing" r1.2 in
  logger_Level <$> heap r2.2 !! r1.1 = Some LevelDebug
  ∧ logger_Level <$> heap r2.2 !! r2.1 = Some LevelWarn.
Proof. vm_compute. split; reflexivity. Qed.

(** [PREFIX=bogus] resolves the root logger to [LevelInfo]. *)
Example unknown_env_value :
  let w := init (ext := sampleExternal) (<["SEVERINO_LOGGER" := "bogus"]> ∅) in
  logger_Level <$> (DefaultLogger w ≫= λ p, heap w !! p) = Some LevelInfo.
Proof. vm_compute. reflexivity. Qed.

(** [SetLevel] after attaching a handler calls its [Init] a second time,
    with the new level. *)
Example Init_reinvoked :
  let h := fullHandler 9 in
  let r1 := Logger_AddHandler
              {| logger_Namespace := "svc";
                 logger_Level := LevelWarn;
                 logger_Handlers := [] |} h in
  r1.2 = [EvInit h "svc" LevelWarn]
  ∧ (Logger_SetLevel r1.1 LevelDebug).2 = [EvInit h "svc" LevelDebug].
Proof. split; reflexivity. Qed.

(** A logger set to [LevelError] does not reach a handler's [Info]. *)
Example Info_below_level :
  Logger_Info (ext := sampleExternal)
    (Logger_SetLevel infoLogger LevelError).1 "%s" [AnyString "x"] = [].
Proof. reflexivity. Qed.

(** After namespace "x" has been created the prefix change returns an
    error and leaves the world as it was. *)
Example prefix_change_refused :
  let w := (Namespace (ext := sampleExternal) "x"
              (init (ext := sampleExternal) ∅)).2 in
  let r := SetDefaultEnvironmentVariablePrefix (ext := sampleExternal) "APP" w in
  is_Some r.1 ∧ r.2 = w
  ∧ GetDefaultEnvironmentVariablePrefix r.2 = "SEVERINO_LOGGER".
Proof. vm_compute. split; [by eexists|]. split; reflexivity. Qed.

(** At [LevelError] a logger whose handlers do not implement [Fatal]
    still ends the process. *)
Example Fatal_exits_without_handlers :
  Logger_Fatal (ext := sampleExternal)
    {| logger_Namespace := "svc";
       logger_Level := LevelError;
       logger_Handlers := [bareHandler 1] |} "stop" []
  = ([EvSprintf "stop" []], Exits 1).
Proof. reflexivity. Qed.

(** * Further properties *)

Section MoreFacts.

Context {ext : External}.

Set Default Proof Using "Type".

(** ** Leveled calls *)

Lemma count_rangeHandlers sev msg h handlers :
  length (filter (λ ev, ev = evOf sev msg h)
            (rangeHandlers (implOf sev) (evOf sev msg) handlers))
  = if implOf sev h then length (filter (λ h', h' = h) handlers) else 0%nat.
Proof.
  unfold rangeHandlers.
  induction handlers as [|h' hs IH]; simpl.
  - by destruct (implOf sev h).
  - rewrite filter_app, length_app, IH. rewrite filter_cons.
    destruct (decide (h' = h)) as [->|Hne].
    + destruct (implOf sev h); [|done].
      rewrite filter_cons, decide_True by done. done.
    + destruct (implOf sev h') eqn:Hi'.
      * rewrite filter_cons, decide_False, filter_nil; [done|].
        intros Heq. by apply evOf_inj in Heq.
      * by rewrite filter_nil.
Qed.

(** X6.  Handlers are not deduplicated: when the level enables the call,
    the method of a handler that implements the capability is called
    once for each time the handler is in the list, and never when it
    does not implement it. *)
Theorem handler_called_once_per_attachment (logger : Logger) (sev : Severity)
    (format : string) (v : list any) (h : Interface) :
  severityLevel sev ≤ logger_Level logger →
  length (filter (λ ev, ev = evOf sev (Sprintf format v) h)
            (Logger_log sev logger format v))
  = if implOf sev h
    then length (filter (λ h', h' = h) (logger_Handlers logger))
    else 0%nat.
Proof.
  intros Hle. apply N.leb_le in Hle.
  rewrite Logger_log_unfold, Hle, filter_cons, decide_False
    by (by destruct sev).
  apply count_rangeHandlers.
Qed.

(** X8.  The enabled severities are closed downwards and grow with the
    level: when a leveled call produces events on a logger, every call
    of an at least as severe kind produces events on every logger whose
    level is at least as high, and [Fatal] ends the process there. *)
Theorem enabled_severities_closed (logger logger' : Logger) (s1 s2 : Severity)
    (format : string) (v : list any) :
  severityLevel s1 ≤ severityLevel s2 →
  logger_Level logger ≤ logger_Level logger' →
  Logger_log s2 logger format v ≠ [] →
  In (EvSprintf format v) (Logger_log s1 logger' format v)
  ∧ (Logger_Fatal logger' format v).2 = Exits 1.
Proof.
  intros Hs Hl. rewrite !Logger_log_unfold. unfold Logger_Fatal.
  rewrite N.ltb_antisym.
  destruct (N.leb_spec (severityLevel s2) (logger_Level logger)) as [H2|H2];
    [intros _ | done].
  assert (H1 : (severityLevel s1 <=? logger_Level logger') = true)
    by (apply N.leb_le; lia).
  assert (He : (LevelError <=? logger_Level logger') = true).
  { apply N.leb_le. assert (LevelError ≤ severityLevel s2) by by destruct s2.
    lia. }
  rewrite H1, He. split; [by left | done].
Qed.

(** ** The byte-sink adapter *)

Lemma TrimRight_newlines (k : nat) :
  gostrings.TrimRight (newlines k) newline = "".
Proof. induction k as [|k IH]; simpl; [done | by rewrite IH]. Qed.

Lemma TrimRight_app_newlines (s : string) (k : nat) :
  lastByte s ≠ Some "010"%char →
  gostrings.TrimRight (s +:+ newlines k) newline = s.
Proof.
  induction s as [|c s IH]; intros Hl.
  - apply TrimRight_newlines.
  - change (String c s +:+ newlines k) with (String c (s +:+ newlines k)).
    cbn [gostrings.TrimRight]. destruct s as [|d s].
    + change ("" +:+ newlines k) with (newlines k).
      rewrite TrimRight_newlines. simpl. rewrite orb_false_r.
      destruct (Ascii.eqb_spec c "010"%char) as [->|_]; [by destruct Hl | done].
    + by rewrite IH.
Qed.

Lemma length_list_byte_of_string (s : string) :
  length (list_byte_of_string s) = String.length s.
Proof.
  unfold list_byte_of_string. rewrite List.length_map.
  induction s as [|c s IH]; simpl; [done | by rewrite IH].
Qed.

Lemma length_append_newlines (s : string) (k : nat) :
  String.length (s +:+ newlines k) = (String.length s + k)%nat.
Proof.
  induction s as [|c s IH].
  - change ("" +:+ newlines k) with (newlines k).
    induction k as [|k IHk]; simpl; [done | by rewrite IHk].
  - change (String c s +:+ newlines k) with (String c (s +:+ newlines k)).
    simpl. by rewrite IH.
Qed.

(** X7.  A payload made of a text that does not end in a newline (the
    empty text included, and newlines inside the text kept) followed by
    any number of newlines is forwarded to [Info] as exactly that text,
    and the returned count includes the newlines that were removed. *)
Theorem Write_strips_newline_suffix (logger : Logger) (s : string) (k : nat) :
  lastByte s ≠ Some "010"%char →
  Logger_Write logger (list_byte_of_string (s +:+ newlines k))
  = (Logger_Info logger "%s" [AnyString s], ((String.length s + k)%nat, None)).
Proof.
  intros Hl. unfold Logger_Write.
  rewrite string_of_list_byte_of_string, TrimRight_app_newlines by done.
  by rewrite length_list_byte_of_string, length_append_newlines.
Qed.

(** ** What a call leaves as it is *)

Lemma Namespace_fields (namespace : string) (w : World) :
  DefaultLogger (Namespace namespace w).2 = DefaultLogger w
  ∧ defaultEnvironmentVariablePrefix (Namespace namespace w).2
    = defaultEnvironmentVariablePrefix w
  ∧ environ (Namespace namespace w).2 = environ w.
Proof.
  destruct (loggers w !! ToLower namespace) as [q|] eqn:Hn.
  - by rewrite (Namespace_existing _ _ _ Hn).
  - by rewrite (Namespace_new _ _ Hn).
Qed.

Lemma Namespace_heap (namespace : string) (w : World) (p : loc) (l : Logger) :
  heap w !! p = Some l → heap (Namespace namespace w).2 !! p = Some l.
Proof.
  intros Hp. destruct (loggers w !! ToLower namespace) as [q|] eqn:Hn.
  - by rewrite (Namespace_existing _ _ _ Hn).
  - rewrite (Namespace_new _ _ Hn). simpl.
    rewrite lookup_insert_ne; [done|]. intros <-.
    pose proof (is_fresh (dom (heap w))) as Hf.
    apply not_elem_of_dom in Hf. congruence.
Qed.

Lemma onLogger_fields (p : loc) (method : Logger → Logger * list Event)
    (w w' : World) :
  onLogger p method w = Some w' →
  DefaultLogger w' = DefaultLogger w
  ∧ defaultEnvironmentVariablePrefix w' = defaultEnvironmentVariablePrefix w
  ∧ environ w' = environ w.
Proof.
  unfold onLogger. destruct (heap w !! p) as [l|]; [|done].
  destruct (method l) as [l' ev]. by intros [= <-].
Qed.

(** A call that is a method call is a call through its receiver. *)
Lemma exec_receiver (c : Call) (w w' : World) (p : loc) :
  receiver c = Some p → exec c w = Some w' →
  ∃ method, onLogger p method w = Some w'
            ∧ ∀ l, logger_Namespace (method l).1 = logger_Namespace l
                   ∧ logger_Handlers l `prefix_of` logger_Handlers (method l).1.
Proof.
  intros Hr He.
  destruct c as [n|?|?|q level|q h|sev q format v|q b]; simpl in *;
    try done; injection Hr as ->; eexists; (split; [exact He|]);
    intros l; simpl; (split; [done|]); try done.
  by apply prefix_app_r.
Qed.

Lemma exec_frame (c : Call) (w w' : World) (p : loc) (l : Logger) :
  exec c w = Some w' → receiver c ≠ Some p →
  heap w !! p = Some l → heap w' !! p = Some l.
Proof.
  intros He Hr Hp.
  destruct c as [n|prefix|prefix|q level|q h|sev q format v|q b]; simpl in *.
  - injection He as <-. by apply Namespace_heap.
  - injection He as <-.
    by destruct (setEnvironmentVariablePrefix_fields prefix w) as [-> _].
  - injection He as <-.
    destruct (setEnvironmentVariablePrefix_fields prefix w) as [Hh _].
    destruct (SetDefaultEnvironmentVariablePrefix_fields prefix w)
      as [[-> _] | [-> _]]; [done|].
    apply Namespace_heap. by rewrite Hh.
  - apply onLogger_Some in He as (l0 & _ & -> & _).
    rewrite lookup_insert_ne; [done | congruence].
  - apply onLogger_Some in He as (l0 & _ & -> & _).
    rewrite lookup_insert_ne; [done | congruence].
  - apply onLogger_Some in He as (l0 & _ & -> & _).
    rewrite lookup_insert_ne; [done | congruence].
  - apply onLogger_Some in He as (l0 & _ & -> & _).
    rewrite lookup_insert_ne; [done | congruence].
Qed.

(** X3.  A [Logger] changes only through method calls on its own
    pointer: a sequence of calls none of which is a method call on [p]
    (lookups and creations of namespaces, prefix changes, calls on other
    loggers) leaves the struct at [p] exactly as it was. *)
Theorem logger_changes_only_through_its_pointer (cs : list Call)
    (w w' : World) (p : loc) (l : Logger) :
  run cs w = Some w' → leavesAlone p cs = true →
  heap w !! p = Some l → heap w' !! p = Some l.
Proof.
  revert w. induction cs as [|c cs IH]; intros w Hr Hc Hp; simpl in *.
  - by injection Hr as <-.
  - destruct (exec c w) as [w1|] eqn:He; [|done].
    apply andb_true_iff in Hc as [Hc Hcs].
    apply (IH w1); [done | done |].
    apply (exec_frame c w); [done | | done].
    apply negb_true_iff, bool_decide_eq_false in Hc. done.
Qed.

Lemma exec_persist (c : Call) (w w' : World) (p : loc) (l : Logger) :
  exec c w = Some w' → heap w !! p = Some l →
  ∃ l', heap w' !! p = Some l'
        ∧ logger_Namespace l' = logger_Namespace l
        ∧ logger_Handlers l `prefix_of` logger_Handlers l'.
Proof.
  intros He Hp. destruct (decide (receiver c = Some p)) as [Hr|Hr].
  - destruct (exec_receiver c w w' p Hr He) as (method & Hm & Hkeep).
    apply onLogger_Some in Hm as (l0 & Hl0 & Hh & _).
    assert (l0 = l) as -> by congruence.
    exists (method l).1. rewrite Hh, lookup_insert_eq.
    by destruct (Hkeep l).
  - exists l. by rewrite (exec_frame c w w' p l He Hr Hp).
Qed.

Lemma run_persist (cs : list Call) (w w' : World) (p : loc) (l : Logger) :
  run cs w = Some w' → heap w !! p = Some l →
  ∃ l', heap w' !! p = Some l'
        ∧ logger_Namespace l' = logger_Namespace l
        ∧ logger_Handlers l `prefix_of` logger_Handlers l'.
Proof.
  revert w l. induction cs as [|c cs IH]; intros w l Hr Hp; simpl in *.
  - injection Hr as <-. by exists l.
  - destruct (exec c w) as [w1|] eqn:He; [|done].
    destruct (exec_persist c w w1 p l He Hp) as (l1 & Hp1 & Hn1 & Hh1).
    destruct (IH w1 l1 Hr Hp1) as (l' & Hp' & Hn' & Hh').
    exists l'. split; [done|]. split; [congruence|]. by etrans.
Qed.

(** X4.  Whatever calls are made, a [Logger] that exists stays at its
    address, keeps its [Namespace], and keeps the handlers it has, in
    their order, at the front of its handler list: no call removes or
    reorders handlers. *)
Theorem logger_persists (cs : list Call) (w w' : World) (p : loc)
    (l : Logger) :
  run cs w = Some w' → heap w !! p = Some l →
  ∃ l', heap w' !! p = Some l'
        ∧ logger_Namespace l' = logger_Namespace l
        ∧ logger_Handlers l `prefix_of` logger_Handlers l'.
Proof. apply run_persist. Qed.

(** X10.  The first spelling wins: when a call of [Namespace] constructs
    the logger, a later call with a name that is equal in lower case
    returns the very pointer of the first call and changes nothing,
    provided the folded name is not empty or no prefix change succeeds
    in between, and the struct there still has as its [Namespace] field
    (the one passed to [Init]) the name as first written. *)
Theorem Namespace_keeps_first_spelling (w : World) (n1 n2 : string)
    (mid : list Call) (w2 : World) :
  loggers w !! ToLower n1 = None →
  ToLower n1 = ToLower n2 →
  run mid (Namespace n1 w).2 = Some w2 →
  ToLower n1 ≠ "" ∨ noSuccessfulPrefixChange mid (Namespace n1 w).2 = true →
  Namespace n2 w2 = ((Namespace n1 w).1, w2)
  ∧ heap w !! (Namespace n1 w).1 = None
  ∧ ∃ l, heap w2 !! (Namespace n1 w).1 = Some l ∧ logger_Namespace l = n1.
Proof.
  intros Hnew Hfold Hmid Hk.
  assert (Hb : loggers w2 !! ToLower n2 = Some (Namespace n1 w).1).
  { rewrite <- Hfold.
    apply (run_binding_refused mid (Namespace n1 w).2); [done..|].
    apply Namespace_returns_binding. }
  split; [by apply Namespace_existing|].
  assert (Hp : heap w !! (Namespace n1 w).1 = None
               ∧ ∃ l, heap (Namespace n1 w).2 !! (Namespace n1 w).1 = Some l
                      ∧ logger_Namespace l = n1).
  { rewrite (Namespace_new _ _ Hnew). simpl. rewrite lookup_insert_eq.
    split; [apply not_elem_of_dom, is_fresh | eauto]. }
  destruct Hp as (Hfresh & l & Hp & Hn). split; [done|].
  destruct (run_persist mid _ w2 _ l Hmid Hp) as (l' & Hp' & Hn' & _).
  exists l'. split; [done | congruence].
Qed.

(** ** The prefix, once a namespace exists *)

Lemma setEnvironmentVariablePrefix_refused (prefix k : string) (p : loc)
    (w : World) :
  loggers w !! k = Some p → k ≠ "" →
  ∃ msg, setEnvironmentVariablePrefix prefix w = (Some msg, w).
Proof.
  intros Hk Hne. unfold setEnvironmentVariablePrefix.
  assert (Ht : rangeLoggers (map_to_list (loggers w)).*1 = true).
  { apply rangeLoggers_map. exists k. by rewrite Hk. }
  rewrite Ht. eauto.
Qed.

Lemma SetDefaultEnvironmentVariablePrefix_refused (prefix k : string)
    (p : loc) (w : World) :
  loggers w !! k = Some p → k ≠ "" →
  ∃ msg, SetDefaultEnvironmentVariablePrefix prefix w = (Some msg, w).
Proof.
  intros Hk Hne. unfold SetDefaultEnvironmentVariablePrefix.
  destruct (setEnvironmentVariablePrefix_refused prefix k p w Hk Hne)
    as [msg ->]. eauto.
Qed.

Lemma exec_prefix_locked (c : Call) (w w' : World) (k : string) (p : loc) :
  loggers w !! k = Some p → k ≠ "" → exec c w = Some w' →
  defaultEnvironmentVariablePrefix w' = defaultEnvironmentVariablePrefix w.
Proof.
  intros Hk Hne He.
  destruct c as [n|prefix|prefix|q level|q h|sev q format v|q b]; simpl in *.
  - injection He as <-. by destruct (Namespace_fields n w) as (_ & -> & _).
  - injection He as <-.
    by destruct (setEnvironmentVariablePrefix_refused prefix k p w Hk Hne)
      as [msg ->].
  - injection He as <-.
    by destruct (SetDefaultEnvironmentVariablePrefix_refused prefix k p w Hk Hne)
      as [msg ->].
  - by destruct (onLogger_fields _ _ _ _ He) as (_ & -> & _).
  - by destruct (onLogger_fields _ _ _ _ He) as (_ & -> & _).
  - by destruct (onLogger_fields _ _ _ _ He) as (_ & -> & _).
  - by destruct (onLogger_fields _ _ _ _ He) as (_ & -> & _).
Qed.

(** X5.  The prefix is locked for good once a namespace other than the
    root exists: whatever calls follow, [GetDefaultEnvironmentVariablePrefix]
    returns what it returned before, and every prefix change returns an
    error and changes nothing. *)
Theorem prefix_locked_by_namespace (cs : list Call) (w w' : World)
    (k : string) (p : loc) :
  loggers w !! k = Some p → k ≠ "" → run cs w = Some w' →
  GetDefaultEnvironmentVariablePrefix w'
    = GetDefaultEnvironmentVariablePrefix w
  ∧ ∀ prefix,
      is_Some (SetDefaultEnvironmentVariablePrefix prefix w').1
      ∧ (SetDefaultEnvironmentVariablePrefix prefix w').2 = w'
      ∧ is_Some (setEnvironmentVariablePrefix prefix w').1
      ∧ (setEnvironmentVariablePrefix prefix w').2 = w'.
Proof.
  intros Hk Hne Hr. unfold GetDefaultEnvironmentVariablePrefix.
  assert (Hk' : loggers w' !! k = Some p)
    by (apply (run_binding cs w); [done | by left | done]).
  split.
  - clear Hk'. revert w Hk Hr.
    induction cs as [|c cs IH]; intros w Hk Hr; simpl in *.
    + by injection Hr as <-.
    + destruct (exec c w) as [w1|] eqn:He; [|done].
      rewrite (IH w1); [by apply (exec_prefix_locked c w w1 k p) | | done].
      apply (exec_binding c w); [done | by left | done].
  - intros prefix.
    destruct (SetDefaultEnvironmentVariablePrefix_refused prefix k p w' Hk' Hne)
      as [msg ->].
    destruct (setEnvironmentVariablePrefix_refused prefix k p w' Hk' Hne)
      as [msg' ->].
    simpl. eauto.
Qed.

(** ** Distinct namespaces *)

Lemma Namespace_injective (namespace : string) (w : World) :
  allocated w → injective w → injective (Namespace namespace w).2.
Proof.
  intros Ha Hi. destruct (loggers w !! ToLower namespace) as [q|] eqn:Hn.
  - by rewrite (Namespace_existing _ _ _ Hn).
  - rewrite (Namespace_new _ _ Hn). intros k1 k2 p. simpl.
    assert (Hfresh : ∀ k, loggers w !! k ≠ Some (fresh (dom (heap w)))).
    { intros k Hk. apply Ha in Hk.
      apply elem_of_dom in Hk. by apply is_fresh in Hk. }
    intros H1 H2.
    apply lookup_insert_Some in H1 as [[<- <-]|[Hne1 H1]];
      apply lookup_insert_Some in H2 as [[<- H2]|[Hne2 H2]];
      try done.
    + by destruct (Hfresh k2).
    + subst p. by destruct (Hfresh k1).
    + by apply (Hi k1 k2 p).
Qed.

Lemma delete_root_injective (w w' : World) :
  loggers w' = loggers w ∨ loggers w' = delete "" (loggers w) →
  injective w → injective w'.
Proof.
  intros Hl Hi k1 k2 p. destruct Hl as [-> | ->]; [apply Hi|].
  intros H1 H2.
  apply lookup_delete_Some in H1 as [_ H1].
  apply lookup_delete_Some in H2 as [_ H2]. by apply (Hi k1 k2 p).
Qed.

Lemma exec_injective (c : Call) (w w' : World) :
  exec c w = Some w' → allocated w → injective w → injective w'.
Proof.
  intros He Ha Hi.
  destruct c as [n|prefix|prefix|q level|q h|sev q format v|q b]; simpl in *.
  - injection He as <-. by apply Namespace_injective.
  - injection He as <-.
    destruct (setEnvironmentVariablePrefix_fields prefix w) as [_ Hl].
    by apply (delete_root_injective w).
  - injection He as <-.
    destruct (setEnvironmentVariablePrefix_fields prefix w) as [Hh Hl].
    destruct (SetDefaultEnvironmentVariablePrefix_fields prefix w)
      as [[_ Hl'] | [_ Hl']].
    + intros k1 k2 p. rewrite Hl'. apply Hi.
    + intros k1 k2 p. rewrite Hl'. apply Namespace_injective.
      * by apply (delete_root_allocated w).
      * by apply (delete_root_injective w).
  - apply onLogger_Some in He as (_ & _ & _ & Hl).
    intros k1 k2 p. rewrite Hl. apply Hi.
  - apply onLogger_Some in He as (_ & _ & _ & Hl).
    intros k1 k2 p. rewrite Hl. apply Hi.
  - apply onLogger_Some in He as (_ & _ & _ & Hl).
    intros k1 k2 p. rewrite Hl. apply Hi.
  - apply onLogger_Some in He as (_ & _ & _ & Hl).
    intros k1 k2 p. rewrite Hl. apply Hi.
Qed.

Lemma run_injective (cs : list Call) (w w' : World) :
  run cs w = Some w' → allocated w → injective w → injective w'.
Proof.
  revert w. induction cs as [|c cs IH]; intros w Hr Ha Hi; simpl in *.
  - by injection Hr as <-.
  - destruct (exec c w) as [w1|] eqn:He; [|done].
    apply (IH w1); [done | by apply (exec_allocated c w) |].
    by apply (exec_injective c w).
Qed.

Lemma init_injective (env : gmap string string) : injective (init env).
Proof.
  unfold init. rewrite Namespace_new by done. intros k1 k2 p. simpl.
  intros H1 H2.
  apply lookup_insert_Some in H1 as [[<- _]|[_ H1]]; [|done].
  apply lookup_insert_Some in H2 as [[<- _]|[_ H2]]; done.
Qed.

(** X2.  Namespaces whose names differ in lower case have different
    [Logger]s: in every world the program reaches, [Namespace] returns
    different pointers for them, so setting the level of one or attaching
    a handler to it leaves the other's struct as it is. *)
Theorem distinct_namespaces_distinct_loggers (env : gmap string string)
    (pre : list Call) (w : World) (n1 n2 : string) :
  run pre (init env) = Some w →
  ToLower n1 ≠ ToLower n2 →
  let r1 := Namespace n1 w in
  let r2 := Namespace n2 r1.2 in
  r1.1 ≠ r2.1
  ∧ ∀ c w', receiver c = Some r1.1 → exec c r2.2 = Some w' →
            heap w' !! r2.1 = heap r2.2 !! r2.1.
Proof.
  intros Hrun Hne r1 r2.
  destruct (init_invariants env) as [Hia _].
  assert (Ha : allocated w) by by apply (run_allocated pre (init env)).
  assert (Hi : injective r2.2).
  { subst r1 r2. apply Namespace_injective.
    - by apply Namespace_allocated.
    - apply Namespace_injective; [done|].
      apply (run_injective pre (init env)); [done | done |].
      apply init_injective. }
  assert (H1 : loggers r2.2 !! ToLower n1 = Some r1.1)
    by apply Namespace_binding, Namespace_returns_binding.
  assert (H2 : loggers r2.2 !! ToLower n2 = Some r2.1)
    by apply Namespace_returns_binding.
  assert (Hp : r1.1 ≠ r2.1).
  { intros Heq. rewrite Heq in H1. by apply Hne, (Hi _ _ r2.1). }
  split; [done|].
  intros c w' Hr He.
  destruct (exec_receiver c r2.2 w' r1.1 Hr He) as (method & Hm & _).
  apply onLogger_Some in Hm as (l & _ & -> & _).
  by rewrite lookup_insert_ne.
Qed.

(** ** The package-level functions *)

Lemma exec_rooted (c : Call) (w w' : World) :
  exportedCall c = true → exec c w = Some w' →
  allocated w → rooted w → rooted w'.
Proof.
  intros Hx He Ha (p & Hd & Hl & Hh).
  destruct c as [n|prefix|prefix|q level|q h|sev q format v|q b];
    simpl in *; try done.
  - injection He as <-. exists p.
    destruct (Namespace_fields n w) as (-> & _ & _).
    split; [done|]. split; [by apply Namespace_binding|].
    destruct Hh as [l Hh]. exists l. by apply Namespace_heap.
  - injection He as <-. unfold SetDefaultEnvironmentVariablePrefix.
    destruct (setEnvironmentVariablePrefix prefix w) as [[msg|] w1] eqn:Hs.
    + unfold setEnvironmentVariablePrefix in Hs.
      destruct (rangeLoggers _); [|done]. injection Hs as _ <-.
      by exists p.
    + destruct (Namespace "" w1) as [p1 w2] eqn:Hn. simpl.
      exists p1. split; [done|].
      pose proof (Namespace_returns_binding "" w1) as Hb.
      rewrite Hn in Hb. simpl in Hb. split; [done|].
      assert (Ha1 : allocated w1).
      { pose proof (setEnvironmentVariablePrefix_fields prefix w) as [Hh1 Hl1].
        rewrite Hs in Hh1, Hl1. by apply (delete_root_allocated w). }
      pose proof (Namespace_allocated "" w1 Ha1) as Ha2.
      rewrite Hn in Ha2. by apply (Ha2 "").
  - destruct (onLogger_fields _ _ _ _ He) as (Hd' & _ & _).
    apply onLogger_Some in He as (l0 & _ & Hh' & Hl').
    exists p. rewrite Hd', Hl', Hh'. split; [done|]. split; [done|].
    apply lookup_insert_is_Some'. by right.
  - destruct (onLogger_fields _ _ _ _ He) as (Hd' & _ & _).
    apply onLogger_Some in He as (l0 & _ & Hh' & Hl').
    exists p. rewrite Hd', Hl', Hh'. split; [done|]. split; [done|].
    apply lookup_insert_is_Some'. by right.
  - destruct (onLogger_fields _ _ _ _ He) as (Hd' & _ & _).
    apply onLogger_Some in He as (l0 & _ & Hh' & Hl').
    exists p. rewrite Hd', Hl', Hh'. split; [done|]. split; [done|].
    apply lookup_insert_is_Some'. by right.
  - destruct (onLogger_fields _ _ _ _ He) as (Hd' & _ & _).
    apply onLogger_Some in He as (l0 & _ & Hh' & Hl').
    exists p. rewrite Hd', Hl', Hh'. split; [done|]. split; [done|].
    apply lookup_insert_is_Some'. by right.
Qed.

Lemma run_rooted (cs : list Call) (w w' : World) :
  forallb exportedCall cs = true → run cs w = Some w' →
  allocated w → rooted w → rooted w'.
Proof.
  revert w. induction cs as [|c cs IH]; intros w Hx Hr Ha Hroot; simpl in *.
  - by injection Hr as <-.
  - destruct (exec c w) as [w1|] eqn:He; [|done].
    apply andb_true_iff in Hx as [Hx Hxs].
    apply (IH w1); [done | done | by apply (exec_allocated c w) |].
    by apply (exec_rooted c w).
Qed.

Lemma init_rooted (env : gmap string string) : rooted (init env).
Proof.
  unfold init. rewrite Namespace_new by done. simpl.
  exists (fresh (dom (∅ : gmap loc Logger))). simpl.
  split; [done|]. split; [apply lookup_insert_eq|].
  by rewrite lookup_insert_eq.
Qed.

Lemma onLogger_is_Some (p : loc) (method : Logger → Logger * list Event)
    (w : World) :
  is_Some (heap w !! p) → is_Some (onLogger p method w).
Proof.
  intros [l Hl]. unfold onLogger. rewrite Hl. by destruct (method l).
Qed.

(** X1.  In every world reached from the initialisation through calls a
    client can make, [DefaultLogger] is the logger that [Namespace("")]
    returns, without constructing anything, and it exists: each
    package-level function is the method call on that logger, none of
    them meets a nil pointer, and [Fatal] is [Fatal] on that logger: its
    events are added to the output and it ends as that call ends. *)
Theorem package_functions_use_root_logger (env : gmap string string)
    (cs : list Call) (w : World) :
  run cs (init env) = Some w →
  forallb exportedCall cs = true →
  ∃ p l, DefaultLogger w = Some p
       ∧ Namespace "" w = (p, w)
       ∧ heap w !! p = Some l
       ∧ (∀ h, AddHandler h w = exec (CallAddHandler p h) w
               ∧ is_Some (AddHandler h w))
       ∧ (∀ level, SetLevel level w = exec (CallSetLevel p level) w
                   ∧ is_Some (SetLevel level w))
       ∧ (∀ format v,
            Debug format v w = exec (CallLog SevDebug p format v) w
            ∧ Info format v w = exec (CallLog SevInfo p format v) w
            ∧ Warn format v w = exec (CallLog SevWarn p format v) w
            ∧ Error format v w = exec (CallLog SevError p format v) w
            ∧ is_Some (Debug format v w) ∧ is_Some (Info format v w)
            ∧ is_Some (Warn format v w) ∧ is_Some (Error format v w)
            ∧ Fatal format v w
              = Some ({| heap := heap w;
                         loggers := loggers w;
                         defaultEnvironmentVariablePrefix :=
                           defaultEnvironmentVariablePrefix w;
                         DefaultLogger := DefaultLogger w;
                         environ := environ w;
                         output := output w ++ (Logger_Fatal l format v).1 |},
                      (Logger_Fatal l format v).2)).
Proof.
  intros Hrun Hx.
  destruct (init_invariants env) as [Hia _].
  destruct (run_rooted cs (init env) w Hx Hrun Hia (init_rooted env))
    as (p & Hd & Hl & [l Hh]).
  exists p, l. split; [done|].
  split; [by apply Namespace_existing|]. split; [done|].
  assert (Hs : is_Some (heap w !! p)) by by exists l.
  unfold AddHandler, SetLevel, Debug, Info, Warn, Error, Fatal,
    onDefaultLogger. rewrite Hd. simpl.
  split; [intros h; split; [done | by apply onLogger_is_Some]|].
  split; [intros level; split; [done | by apply onLogger_is_Some]|].
  intros format v. repeat (split; [done|]).
  repeat (split; [by apply onLogger_is_Some|]).
  rewrite Hh. by destruct (Logger_Fatal l format v).
Qed.

(** ** Settings are shared *)

(** X11.  A level set and a handler attached through one pointer to a
    registered logger are what a later [Namespace] call for that name
    finds: it returns the same pointer, and the struct there has the new
    level and the new handler at the end of its list. *)
Theorem settings_seen_by_later_lookups (w w1 w2 : World) (namespace : string)
    (p : loc) (level : Level) (h : Interface) :
  loggers w !! ToLower namespace = Some p →
  exec (CallSetLevel p level) w = Some w1 →
  exec (CallAddHandler p h) w1 = Some w2 →
  Namespace namespace w2 = (p, w2)
  ∧ ∃ l, heap w2 !! p = Some l
         ∧ logger_Level l = level
         ∧ ∃ hs, logger_Handlers l = hs ++ [h].
Proof.
  intros Hb H1 H2. simpl in H1, H2.
  apply onLogger_Some in H1 as (l0 & Hl0 & Hh1 & Hr1).
  apply onLogger_Some in H2 as (l1 & Hl1 & Hh2 & Hr2).
  rewrite Hh1, lookup_insert_eq in Hl1. injection Hl1 as <-.
  split; [apply Namespace_existing; by rewrite Hr2, Hr1|].
  eexists. rewrite Hh2, lookup_insert_eq. split; [done|].
  split; [done|]. by eexists.
Qed.

(** X12.  In a process with no environment variable set, the logger
    that [Namespace] constructs for a new name is at [LevelInfo], carries
    the name as given and has the default handler as its only handler. *)
Theorem new_namespace_without_environment (w : World) (namespace : string) :
  loggers w !! ToLower namespace = None →
  environ w = ∅ →
  heap w !! (Namespace namespace w).1 = None
  ∧ heap (Namespace namespace w).2 !! (Namespace namespace w).1
    = Some {| logger_Namespace := namespace;
              logger_Level := LevelInfo;
              logger_Handlers := [DefaultHandler] |}.
Proof.
  intros Hn Henv.
  assert (Hlevel : getEnvVarLevel w namespace = "").
  { unfold getEnvVarLevel, Getenv. rewrite Henv.
    destruct (negb (String.eqb namespace "")); simpl;
      by rewrite !lookup_empty. }
  rewrite (Namespace_new _ _ Hn). simpl. rewrite Hlevel.
  split; [apply not_elem_of_dom, is_fresh|].
  by rewrite lookup_insert_eq.
Qed.

(** ** Environment variables shared by namespaces *)

Lemma mapBytes_eq_transfer (f g : ascii → ascii) (s t : string) :
  (∀ a b, f a = f b → g a = g b) →
  gostrings.mapBytes f s = gostrings.mapBytes f t →
  gostrings.mapBytes g s = gostrings.mapBytes g t.
Proof.
  intros Hfg. revert t. induction s as [|a s IH]; intros [|b t]; simpl;
    try done.
  intros [= Hab Hst]. by rewrite (Hfg a b Hab), (IH t Hst).
Qed.

Lemma mapBytes_empty_iff (f : ascii → ascii) (s t : string) :
  gostrings.mapBytes f s = gostrings.mapBytes f t → s = "" ↔ t = "".
Proof. by destruct s, t. Qed.

Lemma dashDot_upper_of_lower (a b : ascii) :
  dashDotToUnderscore (gostrings.toLowerByte a)
  = dashDotToUnderscore (gostrings.toLowerByte b) →
  dashDotToUnderscore (gostrings.toUpperByte a)
  = dashDotToUnderscore (gostrings.toUpperByte b).
Proof.
  pose proof (forall_bytes2 (λ a b,
    implb (Ascii.eqb (dashDotToUnderscore (gostrings.toLowerByte a))
             (dashDotToUnderscore (gostrings.toLowerByte b)))
      (Ascii.eqb (dashDotToUnderscore (gostrings.toUpperByte a))
         (dashDotToUnderscore (gostrings.toUpperByte b)))))
    as H.
  specialize (H ltac:(vm_compute; reflexivity) a b). simpl in H.
  intros Heq. rewrite Heq, Ascii.eqb_refl in H. simpl in H.
  by apply Ascii.eqb_eq.
Qed.

Lemma envName_ascii (namespace : string) :
  gostrings.isASCII namespace = true →
  gostrings.Replace
    (gostrings.Replace (ToUpper namespace) "-" "_" (-1)) "." "_" (-1)
  = gostrings.mapBytes (λ c, dashDotToUnderscore (gostrings.toUpperByte c))
      namespace.
Proof.
  intros Ha. unfold gostrings.ToUpper. rewrite Ha.
  rewrite !Replace_byte by done. rewrite !mapBytes_mapBytes.
  apply mapBytes_ext. intros c. unfold dashDotToUnderscore.
  destruct (Ascii.eqb_spec (gostrings.toUpperByte c) "-") as [->|_]; [done|].
  simpl. by destruct (Ascii.eqb (gostrings.toUpperByte c) ".").
Qed.

(** X9.  ASCII namespaces that differ only in the case of letters and in
    which of [-], [.] and [_] stands at a position read the same
    environment variable, and so resolve to the same level string: the
    loggers "a-b" and "a.b" cannot be given different levels through
    the environment. *)
Theorem getEnvVarLevel_shared_variable (w : World) (n1 n2 : string) :
  gostrings.isASCII n1 = true → gostrings.isASCII n2 = true →
  gostrings.mapBytes (λ c, dashDotToUnderscore (gostrings.toLowerByte c)) n1
  = gostrings.mapBytes (λ c, dashDotToUnderscore (gostrings.toLowerByte c)) n2 →
  getEnvVarLevel w n1 = getEnvVarLevel w n2.
Proof.
  intros H1 H2 Heq. unfold getEnvVarLevel.
  rewrite (envName_ascii n1 H1), (envName_ascii n2 H2).
  rewrite (mapBytes_eq_transfer _
             (λ c, dashDotToUnderscore (gostrings.toUpperByte c)) n1 n2
             dashDot_upper_of_lower Heq).
  pose proof (mapBytes_empty_iff _ n1 n2 Heq) as Hempty.
  destruct (String.eqb_spec n1 "") as [He1|He1];
    destruct (String.eqb_spec n2 "") as [He2|He2]; simpl.
  - by subst.
  - destruct He2. by apply Hempty.
  - destruct He1. by apply Hempty.
  - done.
Qed.

(** ** The earlier version *)

(** X13.  In the earlier version [LevelError] is zero, so the guard of
    [Error] and [Fatal] never holds: on every logger [Error] formats and
    dispatches, and [Fatal] formats, dispatches and ends the process
    with status 1. *)
Theorem part_000_Error_Fatal_unconditional (logger : Logger)
    (format : string) (v : list any) :
  part_000.Logger_Error logger format v
    = EvSprintf format v
        :: map (λ h, EvError h (Sprintf format v))
             (List.filter implError (logger_Handlers logger))
  ∧ part_000.Logger_Fatal logger format v
    = (EvSprintf format v
         :: map (λ h, EvFatal h (Sprintf format v))
              (List.filter implFatal (logger_Handlers logger)),
       Exits 1).
Proof.
  unfold part_000.Logger_Error, part_000.Logger_Fatal.
  assert (H : (logger_Level logger <? part_000.LevelError) = false)
    by (apply N.ltb_ge, N.le_0_l).
  by rewrite H, !rangeHandlers_map_filter.
Qed.

(** X14.  The earlier [getLevelByString] knows "debug", "info", "warn"
    and "error", without regard to case, and gives [LevelWarn] for
    every other string, "none" and the empty string included. *)
Theorem part_000_getLevelByString_table :
  (∀ sr s t,
     gostrings.RuneSelf ≤ gostrings.byte_val sr →
     foldsWithinASCII t = true →
     unicodeEqualFold (String sr s) t = false) →
  ∀ level,
    part_000.getLevelByString level = levelFromStringOrWarn level
    ∧ part_000.getLevelByString "none" = part_000.LevelWarn
    ∧ part_000.getLevelByString "" = part_000.LevelWarn.
Proof.
  intros Hu.
  assert (H : ∀ s, part_000.getLevelByString s = levelFromStringOrWarn s).
  { intros s. unfold part_000.getLevelByString, levelFromStringOrWarn.
    by rewrite !(EqualFold_ascii_word Hu) by done. }
  intros level. by rewrite !H.
Qed.

(** X15.  The earlier [Namespace] has no registry: every call constructs
    a [Logger] at an address that was free, also for a name that was
    used before, and leaves the loggers constructed earlier as they
    are. *)
Theorem part_000_Namespace_always_constructs (n1 n2 : string)
    (st : part_000.State) :
  let r1 := part_000.Namespace n1 st in
  let r2 := part_000.Namespace n2 r1.2 in
  r1.1 ≠ r2.1
  ∧ part_000.heap st !! r1.1 = None
  ∧ part_000.heap r2.2 !! r1.1 = part_000.heap r1.2 !! r1.1
  ∧ logger_Namespace <$> part_000.heap r2.2 !! r1.1 = Some n1
  ∧ logger_Namespace <$> part_000.heap r2.2 !! r2.1 = Some n2
  ∧ ∀ p l, part_000.heap st !! p = Some l →
           part_000.heap r2.2 !! p = Some l.
Proof.
  intros r1 r2. subst r1 r2. unfold part_000.Namespace. simpl.
  set (p1 := fresh (dom (part_000.heap st))).
  set (h1 := <[p1 := _]> (part_000.heap st)).
  set (p2 := fresh (dom h1)).
  assert (Hf1 : part_000.heap st !! p1 = None)
    by apply not_elem_of_dom, is_fresh.
  assert (Hf2 : h1 !! p2 = None) by apply not_elem_of_dom, is_fresh.
  assert (Hne : p1 ≠ p2).
  { intros Heq. rewrite <- Heq in Hf2. unfold h1 in Hf2.
    by rewrite lookup_insert_eq in Hf2. }
  split; [done|]. split; [done|].
  split; [by rewrite lookup_insert_ne|].
  split; [rewrite lookup_insert_ne by done; unfold h1;
          by rewrite lookup_insert_eq|].
  split; [by rewrite lookup_insert_eq|].
  intros p l Hp.
  assert (p ≠ p1) by congruence.
  assert (Hp1 : h1 !! p = Some l)
    by (unfold h1; by rewrite lookup_insert_ne).
  rewrite lookup_insert_ne; [done | congruence].
Qed.

End MoreFacts.

(** ** The further properties at concrete inputs *)

Lemma package_functions_use_root_logger_witness :
  run (ext := sampleExternal) exportedCalls (init (ext := sampleExternal) ∅)
    = Some sampleWorld3
  ∧ forallb exportedCall exportedCalls = true
  ∧ ∃ p l, DefaultLogger sampleWorld3 = Some p
           ∧ Namespace (ext := sampleExternal) "" sampleWorld3
             = (p, sampleWorld3)
           ∧ heap sampleWorld3 !! p = Some l
           ∧ is_Some (Info (ext := sampleExternal) "%s" [AnyString "up"]
                        sampleWorld3)
           ∧ snd <$> Fatal (ext := sampleExternal) "stop" [] sampleWorld3
             = Some ((Logger_Fatal (ext := sampleExternal) l "stop" []).2)
           ∧ (Logger_Fatal (ext := sampleExternal) l "stop" []).2 = Exits 1.
Proof.
  assert (H1 : run (ext := sampleExternal) exportedCalls
                 (init (ext := sampleExternal) ∅) = Some sampleWorld3)
    by (vm_compute; reflexivity).
  assert (H2 : forallb exportedCall exportedCalls = true) by reflexivity.
  split; [exact H1|]. split; [exact H2|].
  destruct (package_functions_use_root_logger (ext := sampleExternal)
              ∅ exportedCalls sampleWorld3 H1 H2)
    as (p & l & Hd & Hn & Hh & _ & _ & Hlog).
  exists p, l. split; [exact Hd|]. split; [exact Hn|]. split; [exact Hh|].
  split.
  - exact (proj1 (proj2 (proj2 (proj2 (proj2 (proj2
             (Hlog "%s" [AnyString "up"]))))))).
  - pose proof (proj2 (proj2 (proj2 (proj2 (proj2 (proj2 (proj2 (proj2
                  (Hlog "stop" []))))))))) as Hf.
    split; [by rewrite Hf|].
    assert (Hp : p = 1%positive).
    { assert (Hd' : DefaultLogger sampleWorld3 = Some 1%positive)
        by (vm_compute; reflexivity).
      congruence. }
    subst p.
    assert (Hl : heap sampleWorld3 !! 1%positive
                 = Some {| logger_Namespace := "";
                           logger_Level := LevelInfo;
                           logger_Handlers := [fullHandler 0] |})
      by (vm_compute; reflexivity).
    pose proof (eq_trans (eq_sym Hh) Hl) as Heq.
    injection Heq as ->. reflexivity.
Defined.

Lemma distinct_namespaces_distinct_loggers_witness :
  run (ext := sampleExternal) sampleCalls (init (ext := sampleExternal) ∅)
    = Some sampleWorld1
  ∧ gostrings.ToLower (@unicodeToLower sampleExternal) "Svc-B"
    ≠ gostrings.ToLower (@unicodeToLower sampleExternal) "other"
  ∧ (Namespace (ext := sampleExternal) "Svc-B" sampleWorld1).1
    ≠ (Namespace (ext := sampleExternal) "other"
         (Namespace (ext := sampleExternal) "Svc-B" sampleWorld1).2).1.
Proof.
  assert (H1 : run (ext := sampleExternal) sampleCalls
                 (init (ext := sampleExternal) ∅) = Some sampleWorld1)
    by (vm_compute; reflexivity).
  assert (H2 : gostrings.ToLower (@unicodeToLower sampleExternal) "Svc-B"
               ≠ gostrings.ToLower (@unicodeToLower sampleExternal) "other")
    by (vm_compute; discriminate).
  split; [exact H1|]. split; [exact H2|].
  exact (proj1 (distinct_namespaces_distinct_loggers (ext := sampleExternal)
                  ∅ sampleCalls sampleWorld1 "Svc-B" "other" H1 H2)).
Defined.

Lemma logger_changes_only_through_its_pointer_witness :
  run (ext := sampleExternal) sampleMid sampleWorld2 = Some sampleWorld3
  ∧ leavesAlone 2%positive sampleMid = true
  ∧ heap sampleWorld2 !! 2%positive = Some (loggerAt 2%positive sampleWorld2)
  ∧ heap sampleWorld3 !! 2%positive = Some (loggerAt 2%positive sampleWorld2).
Proof.
  assert (H1 : run (ext := sampleExternal) sampleMid sampleWorld2
               = Some sampleWorld3) by (vm_compute; reflexivity).
  assert (H2 : leavesAlone 2%positive sampleMid = true)
    by (vm_compute; reflexivity).
  assert (H3 : heap sampleWorld2 !! 2%positive
               = Some (loggerAt 2%positive sampleWorld2))
    by (vm_compute; reflexivity).
  split; [exact H1|]. split; [exact H2|]. split; [exact H3|].
  exact (logger_changes_only_through_its_pointer (ext := sampleExternal)
           sampleMid sampleWorld2 sampleWorld3 2%positive _ H1 H2 H3).
Defined.

Lemma logger_persists_witness :
  run (ext := sampleExternal) sampleMid sampleWorld2 = Some sampleWorld3
  ∧ heap sampleWorld2 !! 3%positive = Some (loggerAt 3%positive sampleWorld2)
  ∧ ∃ l', heap sampleWorld3 !! 3%positive = Some l'
          ∧ logger_Namespace l'
            = logger_Namespace (loggerAt 3%positive sampleWorld2)
          ∧ logger_Handlers (loggerAt 3%positive sampleWorld2)
              `prefix_of` logger_Handlers l'.
Proof.
  assert (H1 : run (ext := sampleExternal) sampleMid sampleWorld2
               = Some sampleWorld3) by (vm_compute; reflexivity).
  assert (H2 : heap sampleWorld2 !! 3%positive
               = Some (loggerAt 3%positive sampleWorld2))
    by (vm_compute; reflexivity).
  split; [exact H1|]. split; [exact H2|].
  exact (logger_persists (ext := sampleExternal)
           sampleMid sampleWorld2 sampleWorld3 3%positive _ H1 H2).
Defined.

Lemma prefix_locked_by_namespace_witness :
  loggers sampleWorld2 !! "svc-b" = Some 3%positive
  ∧ "svc-b" ≠ ""
  ∧ run (ext := sampleExternal) sampleMid sampleWorld2 = Some sampleWorld3
  ∧ GetDefaultEnvironmentVariablePrefix sampleWorld3
    = GetDefaultEnvironmentVariablePrefix sampleWorld2
  ∧ is_Some (SetDefaultEnvironmentVariablePrefix (ext := sampleExternal)
               "APP" sampleWorld3).1.
Proof.
  assert (H1 : loggers sampleWorld2 !! "svc-b" = Some 3%positive)
    by (vm_compute; reflexivity).
  assert (H2 : "svc-b" ≠ "") by discriminate.
  assert (H3 : run (ext := sampleExternal) sampleMid sampleWorld2
               = Some sampleWorld3) by (vm_compute; reflexivity).
  split; [exact H1|]. split; [exact H2|]. split; [exact H3|].
  destruct (prefix_locked_by_namespace (ext := sampleExternal)
              sampleMid sampleWorld2 sampleWorld3 "svc-b" 3%positive H1 H2 H3)
    as [Hp Hs].
  split; [exact Hp | exact (proj1 (Hs "APP"))].
Defined.

Lemma handler_called_once_per_attachment_witness :
  (severityLevel SevInfo
   ≤ logger_Level (Logger_AddHandler infoLogger (fullHandler 1)).1)%N
  ∧ length (filter (λ ev, ev = EvInfo (fullHandler 1) "up")
              (Logger_Info (ext := sampleExternal)
                 (Logger_AddHandler infoLogger (fullHandler 1)).1
                 "%s" [AnyString "up"]))
    = 2%nat.
Proof.
  assert (H : (severityLevel SevInfo
               ≤ logger_Level (Logger_AddHandler infoLogger (fullHandler 1)).1)%N)
    by (vm_compute; discriminate).
  split; [exact H|].
  exact (handler_called_once_per_attachment (ext := sampleExternal)
           (Logger_AddHandler infoLogger (fullHandler 1)).1 SevInfo
           "%s" [AnyString "up"] (fullHandler 1) H).
Defined.

Lemma Write_strips_newline_suffix_witness :
  lastByte twoLines ≠ Some "010"%char
  ∧ Logger_Write (ext := sampleExternal) infoLogger
      (list_byte_of_string (twoLines +:+ newlines 2))
    = (Logger_Info (ext := sampleExternal) infoLogger "%s" [AnyString twoLines],
       ((String.length twoLines + 2)%nat, None)).
Proof.
  assert (H : lastByte twoLines ≠ Some "010"%char)
    by (vm_compute; discriminate).
  split; [exact H|].
  exact (Write_strips_newline_suffix (ext := sampleExternal)
           infoLogger twoLines 2 H).
Defined.

Lemma enabled_severities_closed_witness :
  (severityLevel SevError ≤ severityLevel SevInfo)%N
  ∧ (logger_Level infoLogger ≤ logger_Level infoLogger)%N
  ∧ Logger_log (ext := sampleExternal) SevInfo infoLogger "%s" [AnyString "x"]
    ≠ []
  ∧ In (EvSprintf "%s" [AnyString "x"])
      (Logger_log (ext := sampleExternal) SevError infoLogger
         "%s" [AnyString "x"])
  ∧ (Logger_Fatal (ext := sampleExternal) infoLogger "%s" [AnyString "x"]).2
    = Exits 1.
Proof.
  assert (H1 : (severityLevel SevError ≤ severityLevel SevInfo)%N)
    by (vm_compute; discriminate).
  assert (H2 : (logger_Level infoLogger ≤ logger_Level infoLogger)%N)
    by (vm_compute; discriminate).
  assert (H3 : Logger_log (ext := sampleExternal) SevInfo infoLogger
                 "%s" [AnyString "x"] ≠ []) by discriminate.
  split; [exact H1|]. split; [exact H2|]. split; [exact H3|].
  exact (enabled_severities_closed (ext := sampleExternal)
           infoLogger infoLogger SevError SevInfo "%s" [AnyString "x"]
           H1 H2 H3).
Defined.

Lemma getEnvVarLevel_shared_variable_witness :
  gostrings.isASCII "Pay-Ments" = true
  ∧ gostrings.isASCII "pay.ments" = true
  ∧ getEnvVarLevel (ext := sampleExternal)
      (init (ext := sampleExternal) sampleEnv) "Pay-Ments"
    = getEnvVarLevel (ext := sampleExternal)
        (init (ext := sampleExternal) sampleEnv) "pay.ments".
Proof.
  split; [reflexivity|]. split; [reflexivity|].
  exact (getEnvVarLevel_shared_variable (ext := sampleExternal)
           (init (ext := sampleExternal) sampleEnv) "Pay-Ments" "pay.ments"
           eq_refl eq_refl eq_refl).
Defined.

Lemma Namespace_keeps_first_spelling_witness :
  loggers sampleWorld1
    !! gostrings.ToLower (@unicodeToLower sampleExternal) "Svc-B" = None
  ∧ run (ext := sampleExternal) sampleMid
      (Namespace (ext := sampleExternal) "Svc-B" sampleWorld1).2
    = Some sampleWorld3
  ∧ noSuccessfulPrefixChange (ext := sampleExternal) sampleMid
      (Namespace (ext := sampleExternal) "Svc-B" sampleWorld1).2 = true
  ∧ Namespace (ext := sampleExternal) "svc-b" sampleWorld3
    = ((Namespace (ext := sampleExternal) "Svc-B" sampleWorld1).1,
       sampleWorld3)
  ∧ heap sampleWorld1
      !! (Namespace (ext := sampleExternal) "Svc-B" sampleWorld1).1 = None
  ∧ ∃ l, heap sampleWorld3
           !! (Namespace (ext := sampleExternal) "Svc-B" sampleWorld1).1
         = Some l
         ∧ logger_Namespace l = "Svc-B".
Proof.
  assert (H1 : loggers sampleWorld1
                 !! gostrings.ToLower (@unicodeToLower sampleExternal) "Svc-B"
               = None) by (vm_compute; reflexivity).
  assert (H2 : run (ext := sampleExternal) sampleMid
                 (Namespace (ext := sampleExternal) "Svc-B" sampleWorld1).2
               = Some sampleWorld3) by (vm_compute; reflexivity).
  assert (H3 : noSuccessfulPrefixChange (ext := sampleExternal) sampleMid
                 (Namespace (ext := sampleExternal) "Svc-B" sampleWorld1).2
               = true) by (vm_compute; reflexivity).
  split; [exact H1|]. split; [exact H2|]. split; [exact H3|].
  exact (Namespace_keeps_first_spelling (ext := sampleExternal)
           sampleWorld1 "Svc-B" "svc-b" sampleMid sampleWorld3
           H1 eq_refl H2 (or_intror H3)).
Defined.

Lemma settings_seen_by_later_lookups_witness :
  let w1 := worldAfter [CallSetLevel 3%positive LevelDebug] sampleWorld2 in
  let w2 := worldAfter [CallAddHandler 3%positive (bareHandler 5)] w1 in
  loggers sampleWorld2
    !! gostrings.ToLower (@unicodeToLower sampleExternal) "svc-b"
  = Some 3%positive
  ∧ exec (ext := sampleExternal) (CallSetLevel 3%positive LevelDebug)
      sampleWorld2 = Some w1
  ∧ exec (ext := sampleExternal) (CallAddHandler 3%positive (bareHandler 5)) w1
    = Some w2
  ∧ Namespace (ext := sampleExternal) "svc-b" w2 = (3%positive, w2)
  ∧ ∃ l, heap w2 !! 3%positive = Some l
         ∧ logger_Level l = LevelDebug
         ∧ ∃ hs, logger_Handlers l = hs ++ [bareHandler 5].
Proof.
  intros w1 w2.
  assert (H1 : loggers sampleWorld2
                 !! gostrings.ToLower (@unicodeToLower sampleExternal) "svc-b"
               = Some 3%positive) by (vm_compute; reflexivity).
  assert (H2 : exec (ext := sampleExternal) (CallSetLevel 3%positive LevelDebug)
                 sampleWorld2 = Some w1) by (vm_compute; reflexivity).
  assert (H3 : exec (ext := sampleExternal)
                 (CallAddHandler 3%positive (bareHandler 5)) w1 = Some w2)
    by (vm_compute; reflexivity).
  split; [exact H1|]. split; [exact H2|]. split; [exact H3|].
  exact (settings_seen_by_later_lookups (ext := sampleExternal)
           sampleWorld2 w1 w2 "svc-b" 3%positive LevelDebug (bareHandler 5)
           H1 H2 H3).
Defined.

Lemma new_namespace_without_environment_witness :
  let w := init (ext := sampleExternal) ∅ in
  loggers w !! gostrings.ToLower (@unicodeToLower sampleExternal) "svc" = None
  ∧ environ w = ∅
  ∧ heap w !! (Namespace (ext := sampleExternal) "svc" w).1 = None
  ∧ heap (Namespace (ext := sampleExternal) "svc" w).2
      !! (Namespace (ext := sampleExternal) "svc" w).1
    = Some {| logger_Namespace := "svc";
              logger_Level := LevelInfo;
              logger_Handlers := [fullHandler 0] |}.
Proof.
  intros w.
  assert (H1 : loggers w
                 !! gostrings.ToLower (@unicodeToLower sampleExternal) "svc"
               = None) by (vm_compute; reflexivity).
  assert (H2 : environ w = ∅) by reflexivity.
  split; [exact H1|]. split; [exact H2|].
  exact (new_namespace_without_environment (ext := sampleExternal)
           w "svc" H1 H2).
Defined.

Lemma part_000_getLevelByString_table_witness :
  (∀ sr s t,
     (gostrings.RuneSelf ≤ gostrings.byte_val sr)%N →
     foldsWithinASCII t = true →
     unicodeEqualFold (External := sampleExternal) (String sr s) t = false)
  ∧ part_000.getLevelByString (ext := sampleExternal) "ERROR"
    = part_000.LevelError
  ∧ part_000.getLevelByString (ext := sampleExternal) "none"
    = part_000.LevelWarn.
Proof.
  assert (H : ∀ sr s t,
             (gostrings.RuneSelf ≤ gostrings.byte_val sr)%N →
             foldsWithinASCII t = true →
             unicodeEqualFold (External := sampleExternal) (String sr s) t
             = false)
    by (intros sr s t _ _; reflexivity).
  split; [exact H|].
  split.
  - exact (proj1 (part_000_getLevelByString_table (ext := sampleExternal)
                    H "ERROR")).
  - exact (proj1 (proj2 (part_000_getLevelByString_table
                           (ext := sampleExternal) H "ERROR"))).
Defined.
